(** * hn-notify: the keyword store, the relevance filter, the batch
      notification and the poll cycle of [src/index.ts]

    A shallow embedding of the worker.  JavaScript strings are sequences of
    UTF-16 code units; the asynchronous functions are sequential (every call
    is awaited), so they are written in a state-and-exception monad whose
    state holds the KV namespace, the outside world, the log of requests
    sent and the local variables of the running poll cycle. *)

From Stdlib Require Import ZArith QArith String Ascii.
From stdpp Require Import base option list gmap pretty.

Close Scope Q_scope.
Open Scope Z_scope.
Open Scope nat_scope.

(** ** Strings *)

(** A string is its sequence of UTF-16 code units. *)
Definition jsstring := list N.

(** A string literal of the source (Basic Latin only). *)
Fixpoint lit (s : string) : jsstring :=
  match s with
  | EmptyString => []
  | String c r => N_of_ascii c :: lit r
  end.

(** Template-literal rendering of an integer, [`${n}`] and [n.toString()]. *)
Definition Number_toString (z : Z) : jsstring := lit (pretty z).

(** A string is truthy when it is not empty. *)
Definition truthy (s : jsstring) : bool :=
  match s with [] => false | _ :: _ => true end.

(** An optional string ([string | undefined]) is truthy when it is present
    and not empty. *)
Definition otruthy (o : option jsstring) : bool :=
  match o with Some s => truthy s | None => false end.

(** [a || b] on an optional string and a string. *)
Definition or_else (o : option jsstring) (d : jsstring) : jsstring :=
  match o with
  | Some s => if truthy s then s else d
  | None => d
  end.

(** ECMAScript WhiteSpace and LineTerminator code units, the ones
    [String.prototype.trim] removes. *)
Definition is_whitespace (c : N) : bool :=
  ((9 <=? c) && (c <=? 13) || (c =? 32) || (c =? 160) || (c =? 5760)
   || (8192 <=? c) && (c <=? 8202) || (c =? 8232) || (c =? 8233)
   || (c =? 8239) || (c =? 8287) || (c =? 12288) || (c =? 65279))%N.

Fixpoint trimStart (s : jsstring) : jsstring :=
  match s with
  | c :: r => if is_whitespace c then trimStart r else s
  | [] => []
  end.

Definition trim (s : jsstring) : jsstring :=
  rev (trimStart (rev (trimStart s))).

(** [s.substring(0, n)]. *)
Definition substring0 (n : nat) (s : jsstring) : jsstring := take n s.

(** [parts.join(sep)]. *)
Fixpoint join (sep : jsstring) (parts : list jsstring) : jsstring :=
  match parts with
  | [] => []
  | [p] => p
  | p :: rest => p ++ sep ++ join sep rest
  end.

Definition LT : N := 60.  (* < *)
Definition GT : N := 62.  (* > *)

Definition has_gt (s : jsstring) : bool := bool_decide (GT ∈ s).

(** [s.replace(/<[^>]*>/g, " ")].  A match starts at a [<] that has a [>]
    somewhere after it and runs up to the first such [>]; once a [<] has no
    [>] after it, nothing later matches either.  [in_tag] says that the scan
    is inside a match. *)
Fixpoint strip_scan (in_tag : bool) (s : jsstring) : jsstring :=
  match s with
  | [] => []
  | c :: r =>
      if in_tag then
        if (c =? GT)%N then strip_scan false r else strip_scan true r
      else if (c =? LT)%N && has_gt r then 32%N :: strip_scan true r
      else c :: strip_scan false r
  end.

Definition strip_tags (s : jsstring) : jsstring := strip_scan false s.

(** ** Types of the source *)

Record KeywordConfig := mkKeywordConfig {
  keyword : jsstring;
  context : option jsstring
}.

Record HNHit := mkHNHit {
  objectID : jsstring;
  title : option jsstring;
  story_title : option jsstring;
  url : option jsstring;
  story_url : option jsstring;
  author : jsstring;
  created_at_i : Z;
  comment_text : option jsstring
}.

Record HNSearchResponse := mkHNSearchResponse { hits : list HNHit }.

Record MatchedHit := mkMatchedHit {
  mkeyword : jsstring;  (* field [keyword] of MatchedHit *)
  hit : HNHit
}.

#[global] Instance KeywordConfig_eq_dec : EqDecision KeywordConfig.
Proof. solve_decision. Defined.

(** ** The KV namespace *)

(** The text stored under [KEYWORDS_KEY], given by the value [JSON.parse]
    reads from it: an array of strings (the legacy format) or an array of
    [{keyword, context?}] objects, as the types of [getKeywords] have it.
    [JSON.stringify] leaves an [undefined] context out of the object, which
    is [None] here. *)
Inductive KeywordsJson :=
| JsonStrings (parsed : list jsstring)
| JsonConfigs (parsed : list KeywordConfig).

(** The namespace is read and written at two constant keys only.  The text
    under [LAST_CHECK_KEY] is the decimal rendering of an integer
    ([timestamp.toString()], read back with [parseInt(data, 10)]) and is
    given by that integer.  [None] is a key without a value.  Reads and
    writes of the namespace are taken to succeed. *)
Record KVNamespace := mkKV {
  KEYWORDS_KEY : option KeywordsJson;
  LAST_CHECK_KEY : option Z
}.

(** [RELEVANCE_THRESHOLD = 0.5].  A score is a finite double, compared as
    the rational number it denotes. *)
Definition RELEVANCE_THRESHOLD : Q := (1 # 2)%Q.

Definition Qltb (x y : Q) : bool := negb (Qle_bool y x).

(** ** Values thrown, requests, responses *)

Inductive Thrown := Error (message : jsstring).

Inductive Result (A : Type) :=
| Ok (a : A)
| Throw (e : Thrown).
Arguments Ok {A} a.
Arguments Throw {A} e.

(** The two requests the worker sends with [fetch]: the GET of
    [search_by_date] with its three search parameters, and the POST to
    [https://ntfy.sh/<topic>] with its headers (in insertion order) and
    body. *)
Inductive Request :=
| SearchByDate (query numericFilters hitsPerPage : jsstring)
| NtfyPost (topic : jsstring) (headers : list (jsstring * jsstring)) (body : jsstring).

(** What the worker reads of a response: [ok], [status] and the outcome of
    [response.json()]. *)
Record Response := mkResponse {
  ok : bool;
  status : Z;
  json : Result HNSearchResponse
}.

(** Argument and result of [ai.run]; the result is read with
    [result.response?.[0]?.score]. *)
Record AiInput := mkAiInput { query : jsstring; contexts : list jsstring }.
Record AiScore := mkAiScore { score : option Q }.
Record AiOutput := mkAiOutput { response : option (list AiScore) }.

Record Env := mkEnv { NTFY_TOPIC : option jsstring }.

(** The callback [(k) => k.keyword === normalized] of [addKeyword]; the one
    of [removeKeyword] is its negation. *)
Definition keyword_is (normalized : jsstring) (k : KeywordConfig) : Prop :=
  keyword k = normalized.

#[global] Instance keyword_is_dec normalized k : Decision (keyword_is normalized k).
Proof. unfold keyword_is. apply _. Defined.

(** [existing.context = trimmedContext]. *)
Definition set_context (trimmedContext : option jsstring) (existing : KeywordConfig)
    : KeywordConfig :=
  mkKeywordConfig (keyword existing) trimmedContext.

(** ** The worker *)

Section Worker.

(** [String.prototype.toLowerCase], the engine's Unicode case mapping. *)
Variable toLowerCase : jsstring -> jsstring.

(** The world outside the worker (network, model, clock) and what it answers:
    [fetch] and [ai.run] return or throw, [Date.now()] gives milliseconds. *)
Variable World : Type.
Variable fetch : Request -> World -> Result Response * World.
Variable ai_run : jsstring -> AiInput -> World -> Result AiOutput * World.
Variable Date_now : World -> Z * World.

(** The state a call runs in.  [requests] logs the arguments of every call
    of [fetch], oldest first.  [seenIds], [matches] and [filteredCount] are
    the local variables of [handleScheduled]. *)
Record State := mkState {
  HN_KV : KVNamespace;
  world : World;
  requests : list Request;
  seenIds : gset jsstring;
  matches : list MatchedHit;
  filteredCount : nat
}.

Definition M (A : Type) : Type := State -> Result A * State.

Definition ret {A} (a : A) : M A := fun s => (Ok a, s).

Definition throw {A} (e : Thrown) : M A := fun s => (Throw e, s).

Definition bind {A B} (m : M A) (k : A -> M B) : M B :=
  fun s =>
    match m s with
    | (Ok a, s') => k a s'
    | (Throw e, s') => (Throw e, s')
    end.

(** [try { body } catch (e) { handler }]: what [body] did to the state before
    it threw stays done. *)
Definition try_catch {A} (body : M A) (handler : Thrown -> M A) : M A :=
  fun s =>
    match body s with
    | (Ok a, s') => (Ok a, s')
    | (Throw e, s') => handler e s'
    end.

Notation "'let*' x ':=' m 'in' k" := (bind m (fun x => k))
  (at level 10, x pattern, m at level 100, k at level 200, only parsing).
Notation "m ';;' k" := (bind m (fun _ => k))
  (at level 100, k at level 200, right associativity, only parsing).

(** Reading and writing the state. *)
Definition kv_get {V} (key : KVNamespace -> option V) : M (option V) :=
  fun s => (Ok (key (HN_KV s)), s).

Definition set_HN_KV (kv : KVNamespace) (s : State) : State :=
  mkState kv (world s) (requests s) (seenIds s) (matches s) (filteredCount s).

Definition kv_put_KEYWORDS (text : KeywordsJson) : M unit :=
  fun s => (Ok tt, set_HN_KV (mkKV (Some text) (LAST_CHECK_KEY (HN_KV s))) s).

Definition kv_put_LAST_CHECK (text : Z) : M unit :=
  fun s => (Ok tt, set_HN_KV (mkKV (KEYWORDS_KEY (HN_KV s)) (Some text)) s).

Definition call_fetch (req : Request) : M Response :=
  fun s =>
    let (res, w) := fetch req (world s) in
    (res, mkState (HN_KV s) w (requests s ++ [req]) (seenIds s) (matches s)
                  (filteredCount s)).

Definition call_ai_run (model : jsstring) (input : AiInput) : M AiOutput :=
  fun s =>
    let (res, w) := ai_run model input (world s) in
    (res, mkState (HN_KV s) w (requests s) (seenIds s) (matches s)
                  (filteredCount s)).

Definition call_Date_now : M Z :=
  fun s =>
    let (ms, w) := Date_now (world s) in
    (Ok ms, mkState (HN_KV s) w (requests s) (seenIds s) (matches s)
                    (filteredCount s)).

(** *** HN Algolia API *)

Definition searchHN (query : jsstring) (sinceTimestamp : Z) : M (list HNHit) :=
  let* response :=
    call_fetch (SearchByDate query
                  (lit "created_at_i>" ++ Number_toString sinceTimestamp)
                  (lit "50")) in
  if negb (ok response) then
    throw (Error (lit "HN API error: " ++ Number_toString (status response)))
  else
    match json response with
    | Ok data => ret (hits data)
    | Throw e => throw e
    end.

(** *** Notifications via ntfy.sh *)

Definition sendNotification (topic title message : jsstring)
    (url : option jsstring) : M unit :=
  let headers := [(lit "Title", title)] in
  let headers :=
    match url with
    | Some u =>
        if truthy u then
          headers ++ [(lit "Click", u); (lit "Actions", lit "view, Open, " ++ u)]
        else headers
    | None => headers
    end in
  call_fetch (NtfyPost topic headers message);;
  ret tt.

(** *** Keywords management *)

Definition getKeywords : M (list KeywordConfig) :=
  let* data := kv_get KEYWORDS_KEY in
  match data with
  | None => ret []
  | Some (JsonStrings ((_ :: _) as parsed)) =>
      ret (map (fun keyword => mkKeywordConfig keyword None) parsed)
  | Some (JsonStrings []) => ret []  (* [parsed.length > 0] fails: [parsed], empty *)
  | Some (JsonConfigs parsed) => ret parsed
  end.

(** [context?.trim() || undefined]. *)
Definition trimContext (context : option jsstring) : option jsstring :=
  match context with
  | Some c => if truthy (trim c) then Some (trim c) else None
  | None => None
  end.

Definition addKeyword (keyword : jsstring) (context : option jsstring)
    : M (list KeywordConfig) :=
  let* keywords := getKeywords in
  let normalized := toLowerCase (trim keyword) in
  if negb (truthy normalized) then
    throw (Error (lit "Keyword cannot be empty"))
  else
    let trimmedContext := trimContext context in
    let keywords :=
      match list_find (keyword_is normalized) keywords with
      | Some (i, existing) => <[i := set_context trimmedContext existing]> keywords
      | None => keywords ++ [mkKeywordConfig normalized trimmedContext]
      end in
    kv_put_KEYWORDS (JsonConfigs keywords);;
    ret keywords.

Definition removeKeyword (keyword : jsstring) : M (list KeywordConfig) :=
  let* keywords := getKeywords in
  let normalized := toLowerCase (trim keyword) in
  let filtered := filter (fun k => ¬ keyword_is normalized k) keywords in
  kv_put_KEYWORDS (JsonConfigs filtered);;
  ret filtered.

(** *** Last check timestamp *)

Definition getLastCheckTimestamp : M Z :=
  let* data := kv_get LAST_CHECK_KEY in
  match data with
  | None =>
      let* ms := call_Date_now in
      ret (ms / 1000 - 15 * 60)%Z
  | Some n => ret n
  end.

Definition setLastCheckTimestamp (timestamp : Z) : M unit :=
  kv_put_LAST_CHECK timestamp.

(** *** Relevance *)

(** [.filter(Boolean)] on an array of optional strings. *)
Fixpoint filter_Boolean (parts : list (option jsstring)) : list jsstring :=
  match parts with
  | [] => []
  | Some p :: rest => if truthy p then p :: filter_Boolean rest else filter_Boolean rest
  | None :: rest => filter_Boolean rest
  end.

(** The [content] of [checkRelevance]. *)
Definition relevance_content (hit : HNHit) : jsstring :=
  substring0 500
    (join (lit " ")
       (filter_Boolean
          [title hit; story_title hit; strip_tags <$> comment_text hit])).

(** [result.response?.[0]?.score ?? 0]. *)
Definition first_score (result : AiOutput) : Q :=
  match response result with
  | Some (first :: _) => default 0%Q (score first)
  | _ => 0%Q
  end.

Definition checkRelevance (context : jsstring) (hit : HNHit) : M Q :=
  let content := relevance_content hit in
  if negb (truthy (trim content)) then ret 0%Q
  else
    let* result :=
      call_ai_run (lit "@cf/baai/bge-reranker-base") (mkAiInput context [content]) in
    ret (first_score result).

(** *** Formatting *)

Definition formatHitBody (hit : HNHit) : jsstring :=
  if otruthy (comment_text hit) then
    substring0 200 (strip_tags (default [] (comment_text hit))) ++ lit "..."
  else lit "by " ++ author hit.

(** A [Map<string, number>], its entries in insertion order. *)
Fixpoint Map_get (m : list (jsstring * nat)) (k : jsstring) : option nat :=
  match m with
  | [] => None
  | (k', v') :: rest => if decide (k' = k) then Some v' else Map_get rest k
  end.

Fixpoint Map_set (m : list (jsstring * nat)) (k : jsstring) (v : nat)
    : list (jsstring * nat) :=
  match m with
  | [] => [(k, v)]
  | (k', v') :: rest =>
      if decide (k' = k) then (k', v) :: rest else (k', v') :: Map_set rest k v
  end.

(** [hit.title || hit.story_title || "Comment"]. *)
Definition itemTitle (hit : HNHit) : jsstring :=
  or_else (title hit) (or_else (story_title hit) (lit "Comment")).

Definition BULLET : N := 8226.  (* U+2022 *)

Definition formatBatchNotification (matches : list MatchedHit) : jsstring * jsstring :=
  match matches with
  | [] => (lit "HN Alert", lit "No matches")
  | [m] =>
      (lit "[" ++ mkeyword m ++ lit "] " ++ itemTitle (hit m), formatHitBody (hit m))
  | _ =>
      let keywordCounts :=
        fold_left
          (fun counts m =>
             Map_set counts (mkeyword m) (default 0 (Map_get counts (mkeyword m)) + 1))
          matches [] in
      let summaryParts :=
        map (fun e => fst e ++ lit "(" ++ Number_toString (Z.of_nat (snd e)) ++ lit ")")
            keywordCounts in
      let title :=
        lit "HN Alert: " ++ Number_toString (Z.of_nat (length matches)) ++ lit " matches" in
      let lines := [join (lit ", ") summaryParts; []] in
      let lines :=
        lines ++
        map (fun m =>
               [BULLET] ++ lit " [" ++ mkeyword m ++ lit "] "
               ++ substring0 60 (itemTitle (hit m)))
            (take 10 matches) in
      let lines :=
        if decide (10 < length matches) then
          lines ++ [lit "... and " ++ Number_toString (Z.of_nat (length matches) - 10)
                    ++ lit " more"]
        else lines in
      (title, join [10%N] lines)
  end.

(** *** The scheduled handler *)

Definition get_seenIds : M (gset jsstring) := fun s => (Ok (seenIds s), s).
Definition get_matches : M (list MatchedHit) := fun s => (Ok (matches s), s).

(** [const seenIds = new Set(); const matches = []; let filteredCount = 0]. *)
Definition init_locals : M unit :=
  fun s => (Ok tt, mkState (HN_KV s) (world s) (requests s) ∅ [] 0).

Definition seenIds_add (id : jsstring) : M unit :=
  fun s => (Ok tt, mkState (HN_KV s) (world s) (requests s) ({[id]} ∪ seenIds s)
                           (matches s) (filteredCount s)).

Definition matches_push (m : MatchedHit) : M unit :=
  fun s => (Ok tt, mkState (HN_KV s) (world s) (requests s) (seenIds s)
                           (matches s ++ [m]) (filteredCount s)).

Definition filteredCount_incr : M unit :=
  fun s => (Ok tt, mkState (HN_KV s) (world s) (requests s) (seenIds s)
                           (matches s) (S (filteredCount s))).

(** [new Date(t).toISOString()] throws a RangeError when [t] is not a time
    value; the string it returns otherwise is only logged. *)
Definition Date_toISOString (t : Z) : M unit :=
  if decide (8640000000000000 < Z.abs t)%Z then throw (Error (lit "Invalid time value"))
  else ret tt.

Fixpoint for_of {A} (items : list A) (body : A -> M unit) : M unit :=
  match items with
  | [] => ret tt
  | x :: rest => body x;; for_of rest body
  end.

(** The body of the loop over [hits].  [keep] is false where the source
    leaves the iteration with [continue] after counting a filtered hit. *)
Definition scanHit (kc : KeywordConfig) (h : HNHit) : M unit :=
  let* seen := get_seenIds in
  if decide (objectID h ∈ seen) then ret tt
  else
    seenIds_add (objectID h);;
    let* keep :=
      if otruthy (context kc) then
        try_catch
          (let* score := checkRelevance (default [] (context kc)) h in
           if Qltb score RELEVANCE_THRESHOLD then filteredCount_incr;; ret false
           else ret true)
          (fun aiError => ret true)
      else ret true in
    if keep : bool then matches_push (mkMatchedHit (keyword kc) h) else ret tt.

(** The body of the loop over [keywordConfigs]. *)
Definition scanKeyword (lastCheck : Z) (kc : KeywordConfig) : M unit :=
  try_catch
    (let* hits := searchHN (keyword kc) lastCheck in
     for_of hits (scanHit kc))
    (fun error => ret tt).

Definition scanKeywords (keywordConfigs : list KeywordConfig) (lastCheck : Z) : M unit :=
  for_of keywordConfigs (scanKeyword lastCheck).

Definition ITEM_URL : jsstring := lit "https://news.ycombinator.com/item?id=".

Definition handleScheduled (env : Env) : M unit :=
  let* keywordConfigs := getKeywords in
  if decide (length keywordConfigs = 0) then ret tt
  else if negb (otruthy (NTFY_TOPIC env)) then ret tt
  else
    let* lastCheck := getLastCheckTimestamp in
    let* ms := call_Date_now in
    let now := (ms / 1000)%Z in
    Date_toISOString (lastCheck * 1000);;
    init_locals;;
    scanKeywords keywordConfigs lastCheck;;
    let* matches := get_matches in
    match matches with
    | first :: _ =>
        let (title, body) := formatBatchNotification matches in
        sendNotification (default [] (NTFY_TOPIC env)) title body
          (Some (ITEM_URL ++ objectID (hit first)))
    | [] => ret tt
    end;;
    setLastCheckTimestamp now.

End Worker.

Arguments mkState {World}.
Arguments HN_KV {World}.
Arguments world {World}.
Arguments requests {World}.
Arguments seenIds {World}.
Arguments matches {World}.
Arguments filteredCount {World}.
Arguments ret {World A}.
Arguments throw {World A}.
Arguments bind {World A B}.
Arguments try_catch {World A}.
Arguments kv_get {World V}.
Arguments set_HN_KV {World}.
Arguments kv_put_KEYWORDS {World}.
Arguments kv_put_LAST_CHECK {World}.
Arguments call_fetch {World}.
Arguments call_ai_run {World}.
Arguments call_Date_now {World}.
Arguments searchHN {World}.
Arguments sendNotification {World}.
Arguments getKeywords {World}.
Arguments addKeyword toLowerCase {World}.
Arguments removeKeyword toLowerCase {World}.
Arguments getLastCheckTimestamp {World}.
Arguments setLastCheckTimestamp {World}.
Arguments checkRelevance {World}.
Arguments get_seenIds {World}.
Arguments get_matches {World}.
Arguments init_locals {World}.
Arguments seenIds_add {World}.
Arguments matches_push {World}.
Arguments filteredCount_incr {World}.
Arguments Date_toISOString {World}.
Arguments for_of {World A}.
Arguments scanHit {World}.
Arguments scanKeyword {World}.
Arguments scanKeywords {World}.
Arguments handleScheduled {World}.

(** ** Definitions used by the statements *)

(** What [getKeywords] returns in a state: the stored keyword sequence. *)
Definition stored_keywords {World} (s : State World) : list KeywordConfig :=
  match fst (getKeywords s) with
  | Ok keywords => keywords
  | Throw _ => []
  end.

(** The array [addKeyword] writes, from the array it read. *)
Definition upsert (normalized : jsstring) (trimmedContext : option jsstring)
    (keywords : list KeywordConfig) : list KeywordConfig :=
  match list_find (keyword_is normalized) keywords with
  | Some (i, existing) => <[i := set_context trimmedContext existing]> keywords
  | None => keywords ++ [mkKeywordConfig normalized trimmedContext]
  end.

(** A keyword entry is normalized: trimmed, lowercased and not empty. *)
Definition normalized_entry (toLowerCase : jsstring -> jsstring) (k : KeywordConfig) : Prop :=
  toLowerCase (trim (keyword k)) = keyword k ∧ keyword k ≠ [].

(** The state with [text] stored under [KEYWORDS_KEY]. *)
Definition with_keywords {World} (text : option KeywordsJson) (s : State World)
    : State World :=
  set_HN_KV (mkKV text (LAST_CHECK_KEY (HN_KV s))) s.

(** The state after [add(k, c1)] and then [add(k, c2)]. *)
Definition add_twice (toLowerCase : jsstring -> jsstring) {World}
    (k : jsstring) (c1 c2 : option jsstring) (s : State World) : State World :=
  snd (addKeyword toLowerCase k c2 (snd (addKeyword toLowerCase k c1 s))).

(** The context of the sentence "carrying context c2 (absent if c2 is blank
    or omitted)": [c2] itself, unless it is blank. *)
Definition context_as_given (c2 : option jsstring) : option jsstring :=
  match c2 with
  | Some c => if truthy (trim c) then Some c else None
  | None => None
  end.

(** The upsert sentence as it is written, at one store state and one call
    pair: exactly one entry with the normalized keyword, and it carries
    [c2]. *)
Definition add_twice_as_stated (toLowerCase : jsstring -> jsstring) {World}
    (k : jsstring) (c1 c2 : option jsstring) (s : State World) : Prop :=
  let n := toLowerCase (trim k) in
  n ≠ [] →
  let stored := stored_keywords (add_twice toLowerCase k c1 c2 s) in
  length (filter (keyword_is n) stored) = 1
  ∧ ∀ e, e ∈ stored → keyword e = n → context e = context_as_given c2.

(** The request [searchHN] sends for a keyword entry. *)
Definition search_request (lastCheck : Z) (kc : KeywordConfig) : Request :=
  SearchByDate (keyword kc) (lit "created_at_i>" ++ Number_toString lastCheck) (lit "50").

Section CycleViews.

Context {World : Type}.
Context (fetch : Request -> World -> Result Response * World).
Context (ai_run : jsstring -> AiInput -> World -> Result AiOutput * World).
Context (Date_now : World -> Z * World).

(** [lastCheck] and [now] of the poll cycle started in state [s], and the
    state in which its loop over the keywords starts. *)
Definition cycle_lastCheck (s : State World) : Z :=
  match fst (getLastCheckTimestamp Date_now s) with
  | Ok t => t
  | Throw _ => 0%Z
  end.

Definition cycle_now (s : State World) : Z :=
  (fst (Date_now (world (snd (getLastCheckTimestamp Date_now s)))) / 1000)%Z.

Definition scan_start (s : State World) : State World :=
  snd (init_locals (snd (call_Date_now Date_now (snd (getLastCheckTimestamp Date_now s))))).

(** The poll cycle started in [s] gets to its loop: there are keywords, the
    topic is configured and the log line with the date of [lastCheck] does
    not throw. *)
Definition cycle_scans (env : Env) (s : State World) : Prop :=
  stored_keywords s ≠ []
  ∧ otruthy (NTFY_TOPIC env) = true
  ∧ (Z.abs (cycle_lastCheck s * 1000) ≤ 8640000000000000)%Z.

(** The state after the loop has gone through the first [i] keywords, from
    the state [s0] in which it started, and what the search of a keyword
    entry [kc] at index [i] returns or throws there. *)
Definition scanned (lastCheck : Z) (kws : list KeywordConfig) (i : nat)
    (s0 : State World) : State World :=
  snd (scanKeywords fetch ai_run (take i kws) lastCheck s0).

Definition search_outcome (lastCheck : Z) (kws : list KeywordConfig) (i : nat)
    (kc : KeywordConfig) (s0 : State World) : Result (list HNHit) :=
  fst (searchHN fetch (keyword kc) lastCheck (scanned lastCheck kws i s0)).

(** The state after the keyword entry [kc] at index [i] has been searched
    and the hits [found] gone through. *)
Definition scanned_hits (lastCheck : Z) (kws : list KeywordConfig) (i : nat)
    (kc : KeywordConfig) (found : list HNHit) (s0 : State World) : State World :=
  snd (for_of found (scanHit ai_run kc)
         (snd (searchHN fetch (keyword kc) lastCheck (scanned lastCheck kws i s0)))).

(** The state at the end of the loop of the poll cycle started in [s]. *)
Definition scan_end (s : State World) : State World :=
  snd (scanKeywords fetch ai_run (stored_keywords s) (cycle_lastCheck s) (scan_start s)).

(** The request [sendNotification] posts for a batch. *)
Definition notification_request (env : Env) (batch : list MatchedHit) : Request :=
  let link :=
    ITEM_URL ++ match batch with first :: _ => objectID (hit first) | [] => [] end in
  NtfyPost (default [] (NTFY_TOPIC env))
    [(lit "Title", fst (formatBatchNotification batch));
     (lit "Click", link);
     (lit "Actions", lit "view, Open, " ++ link)]
    (snd (formatBatchNotification batch)).

(** The queries of the searches in a log of requests, oldest first. *)
Definition search_queries (reqs : list Request) : list jsstring :=
  omap (fun r => match r with
                 | SearchByDate q _ _ => Some q
                 | NtfyPost _ _ _ => None
                 end) reqs.

(** What isolating a search failure gives in the poll cycle started in [s],
    apart from the watermark: every hit list a search returned has been gone
    through and what it put on the batch is in the final batch; a keyword
    without context has a match for each hit its search returned whose id no
    earlier search returned; and the searches sent are those of the keyword
    list, all of them, in list order. *)
Definition failure_isolated_in_scan (env : Env) (s : State World) : Prop :=
  let kws := stored_keywords s in
  let lastCheck := cycle_lastCheck s in
  let s0 := scan_start s in
  let final := snd (handleScheduled fetch ai_run Date_now env s) in
  (∀ j kc found,
     kws !! j = Some kc → search_outcome lastCheck kws j kc s0 = Ok found →
     matches (scanned_hits lastCheck kws j kc found s0) `prefix_of` matches final)
  ∧ (∀ j kc found h,
       kws !! j = Some kc → search_outcome lastCheck kws j kc s0 = Ok found →
       otruthy (context kc) = false → h ∈ found →
       (∀ j' kc' found', j' < j → kws !! j' = Some kc' →
          search_outcome lastCheck kws j' kc' s0 = Ok found' →
          objectID h ∉ map objectID found') →
       ∃ m, m ∈ matches final ∧ mkeyword m = keyword kc
            ∧ objectID (hit m) = objectID h)
  ∧ search_queries (requests final) = search_queries (requests s) ++ map keyword kws.

(** In the poll cycle started in [s] the search of some keyword throws and
    the search of another returns. *)
Definition some_search_fails_some_succeeds (s : State World) : Prop :=
  let kws := stored_keywords s in
  let lastCheck := cycle_lastCheck s in
  let s0 := scan_start s in
  (∃ i kc e, kws !! i = Some kc ∧ search_outcome lastCheck kws i kc s0 = Throw e)
  ∧ (∃ j kc found, kws !! j = Some kc ∧ search_outcome lastCheck kws j kc s0 = Ok found).

(** The failure-isolation sentence as it is written, for the poll cycle
    started in [s]: the cycle is not aborted and the watermark is advanced. *)
Definition failure_isolated_as_stated (env : Env) (s : State World) : Prop :=
  cycle_scans env s → some_search_fails_some_succeeds s →
  fst (handleScheduled fetch ai_run Date_now env s) = Ok tt
  ∧ failure_isolated_in_scan env s
  ∧ LAST_CHECK_KEY (HN_KV (snd (handleScheduled fetch ai_run Date_now env s)))
    = Some (cycle_now s).

End CycleViews.

(** [h] is in [found], and no hit before it there has its id. *)
Definition first_with_id (h : HNHit) (found : list HNHit) : Prop :=
  ∃ before after, found = before ++ h :: after ∧ objectID h ∉ map objectID before.

(** The batch has one match per hit id at most, and the ids of its hits
    have been seen. *)
Definition batch_ok {World} (s : State World) : Prop :=
  NoDup (map (fun m => objectID (hit m)) (matches s))
  ∧ ∀ m, m ∈ matches s → objectID (hit m) ∈ seenIds s.

(** *** Stripped text and the snippet, in the words of the specification *)






(** No two entries have keywords that are equal without regard to case and
    to white space around them. *)
Definition unique_insensitive (toLowerCase : jsstring -> jsstring)
    (keywords : list KeywordConfig) : Prop :=
  NoDup (map (fun e => toLowerCase (trim (keyword e))) keywords).

(** The uniqueness invariant of the store. *)
Definition uniqueness_invariant (toLowerCase : jsstring -> jsstring)
    (keywords : list KeywordConfig) : Prop :=
  Forall (normalized_entry toLowerCase) keywords ∧ unique_insensitive toLowerCase keywords.

(** *** The notification of a batch, in the words of the specification *)








(** *** A concrete world for runs on examples *)

(** [toLowerCase] on strings of Basic Latin code units. *)
Definition toLowerCase_ascii (s : jsstring) : jsstring :=
  map (fun c => if (65 <=? c)%N && (c <=? 90)%N then (c + 32)%N else c) s.

(** A world that is down or not: when it is down the POST to ntfy.sh throws.
    The search for "rust" answers 503, any other search answers two hits;
    the model scores every text 0.7; the clock shows 1700000000999 ms. *)
Definition demo_hit (id ttl : string) : HNHit :=
  mkHNHit (lit id) (Some (lit ttl)) None None None (lit "pg") 1699999999 None.

Definition demo_fetch (req : Request) (down : bool) : Result Response * bool :=
  match req with
  | SearchByDate q _ _ =>
      if decide (q = lit "rust") then
        (Ok (mkResponse false 503 (Throw (Error (lit "Unexpected token")))), down)
      else
        (Ok (mkResponse true 200
               (Ok (mkHNSearchResponse [demo_hit "1" "Zig 1.0"; demo_hit "2" "Show HN"]))),
         down)
  | NtfyPost _ _ _ =>
      if down then (Throw (Error (lit "fetch failed")), down)
      else (Ok (mkResponse true 200 (Throw (Error (lit "Unexpected end of JSON input")))), down)
  end.

Definition demo_ai_run (model : jsstring) (input : AiInput) (down : bool)
    : Result AiOutput * bool :=
  (Ok (mkAiOutput (Some [mkAiScore (Some (7 # 10)%Q)])), down).



(** A comment that is one tag and white space. *)
Definition demo_blank_comment : HNHit :=
  mkHNHit (lit "4") None None None None (lit "pg") 1699999999 (Some (lit "<p> <br>")).

Definition demo_Date_now (down : bool) : Z * bool := (1700000000999%Z, down).

Definition demo_state (down : bool) (text : option KeywordsJson) : State bool :=
  mkState (mkKV text None) down [] ∅ [] 0.

(** A model that is down: every call of [ai.run] throws. *)
Definition demo_ai_down (model : jsstring) (input : AiInput) (down : bool)
    : Result AiOutput * bool :=
  (Throw (Error (lit "3040: capacity temporarily exceeded")), down).

(** A model that scores every text 0.3. *)
Definition demo_ai_cold (model : jsstring) (input : AiInput) (down : bool)
    : Result AiOutput * bool :=
  (Ok (mkAiOutput (Some [mkAiScore (Some (3 # 10)%Q)])), down).

Definition demo_env : Env := mkEnv (Some (lit "alerts")).

Definition rust : KeywordConfig := mkKeywordConfig (lit "rust") None.
Definition zig : KeywordConfig := mkKeywordConfig (lit "zig") None.
Definition zig_lang : KeywordConfig :=
  mkKeywordConfig (lit "zig") (Some (lit "the Zig programming language")).

Definition go : KeywordConfig := mkKeywordConfig (lit "go") None.

(** Twelve matches of the keywords "zig" and "go". *)
Definition demo_batch : list MatchedHit :=
  map (fun id => mkMatchedHit (lit (if Nat.even id then "zig" else "go"))
                   (demo_hit "7" "Show HN"))
      (seq 0 12).

(** The state in which the keywords are "rust" and "zig". *)
Definition demo_cycle (down : bool) : State bool :=
  demo_state down (Some (JsonConfigs [rust; zig])).

(** ** The HTTP handler *)

(** [s.startsWith(prefix)]. *)
Fixpoint startsWith (s prefix : jsstring) : bool :=
  match prefix, s with
  | [], _ => true
  | p :: prefix', c :: s' => (c =? p)%N && startsWith s' prefix'
  | _ :: _, [] => false
  end.

(** [s.replace(pattern, "")] with a string pattern: the first occurrence of
    the pattern is taken out. *)
Fixpoint replace_first (pattern s : jsstring) : jsstring :=
  if startsWith s pattern then drop (length pattern) s
  else match s with
       | [] => []
       | c :: s' => c :: replace_first pattern s'
       end.

(** What the handler reads of a request: its method, the path of its URL and
    the outcome of [request.json()], typed [{keyword, context?}]. *)
Record PostBody := mkPostBody {
  body_keyword : jsstring;          (* field [keyword] *)
  body_context : option jsstring    (* field [context] *)
}.

Record HttpRequest := mkHttpRequest {
  method : jsstring;
  pathname : jsstring;
  request_json : Result PostBody
}.

(** The objects the handler answers with. *)
Inductive Payload :=
| KeywordsPayload (keywords : list KeywordConfig)
| StatusPayload (keywords_count : nat) (last_check : jsstring)
    (ntfy_configured : bool) (relevance_threshold : Q)
| TriggerPayload (ok : bool) (message : jsstring)
| ErrorPayload (error : jsstring).

(** [new Response(null, {headers})] and
    [Response.json(data, {status, headers})], the status 200 when it is not
    given. *)
Inductive HttpResponse :=
| Response_null (headers : list (jsstring * jsstring))
| Response_json (data : Payload) (status : Z) (headers : list (jsstring * jsstring)).

Definition corsHeaders : list (jsstring * jsstring) :=
  [(lit "Access-Control-Allow-Origin", lit "*");
   (lit "Access-Control-Allow-Methods", lit "GET, POST, DELETE, OPTIONS");
   (lit "Access-Control-Allow-Headers", lit "Content-Type")].

Definition response_headers (r : HttpResponse) : list (jsstring * jsstring) :=
  match r with
  | Response_null headers => headers
  | Response_json _ _ headers => headers
  end.

Definition response_status (r : HttpResponse) : Z :=
  match r with
  | Response_null _ => 200
  | Response_json _ status _ => status
  end.

(** [error instanceof Error ? error.message : "Unknown error"]; every value
    thrown here is an [Error]. *)
Definition error_message (error : Thrown) : jsstring :=
  match error with Error message => message end.

Section Api.

Variable toLowerCase : jsstring -> jsstring.

(** [decodeURIComponent], which throws a URIError on a malformed escape, and
    the text [Date.prototype.toISOString] gives for a time value. *)
Variable decodeURIComponent : jsstring -> Result jsstring.
Variable toISOString : Z -> jsstring.

Variable World : Type.
Variable fetch : Request -> World -> Result Response * World.
Variable ai_run : jsstring -> AiInput -> World -> Result AiOutput * World.
Variable Date_now : World -> Z * World.

Notation "'let*' x ':=' m 'in' k" := (bind m (fun x => k))
  (at level 10, x pattern, m at level 100, k at level 200, only parsing).
Notation "m ';;' k" := (bind m (fun _ => k))
  (at level 100, k at level 200, right associativity, only parsing).

(** [new Date(t).toISOString()], with its text. *)
Definition Date_ISO (t : Z) : M World jsstring :=
  if decide (8640000000000000 < Z.abs t)%Z then throw (Error (lit "Invalid time value"))
  else ret (toISOString t).

(** A promise or call that has settled already. *)
Definition settled {A} (r : Result A) : M World A :=
  match r with
  | Ok a => ret a
  | Throw e => throw e
  end.

(** The body of the [try] of [handleRequest]. *)
Definition routes (request : HttpRequest) (env : Env) : M World HttpResponse :=
  let path := pathname request in
  if bool_decide (path = lit "/keywords") && bool_decide (method request = lit "GET")
  then
    let* keywords := getKeywords in
    ret (Response_json (KeywordsPayload keywords) 200 corsHeaders)
  else if bool_decide (path = lit "/keywords")
          && bool_decide (method request = lit "POST")
  then
    let* body := settled (request_json request) in
    let* keywords := addKeyword toLowerCase (body_keyword body) (body_context body) in
    ret (Response_json (KeywordsPayload keywords) 200 corsHeaders)
  else if startsWith path (lit "/keywords/")
          && bool_decide (method request = lit "DELETE")
  then
    let* keyword :=
      settled (decodeURIComponent (replace_first (lit "/keywords/") path)) in
    let* keywords := removeKeyword toLowerCase keyword in
    ret (Response_json (KeywordsPayload keywords) 200 corsHeaders)
  else if bool_decide (path = lit "/status") && bool_decide (method request = lit "GET")
  then
    let* keywords := getKeywords in
    let* lastCheck := getLastCheckTimestamp Date_now in
    let* last_check := Date_ISO (lastCheck * 1000) in
    ret (Response_json
           (StatusPayload (length keywords) last_check (otruthy (NTFY_TOPIC env))
              RELEVANCE_THRESHOLD)
           200 corsHeaders)
  else if bool_decide (path = lit "/trigger")
          && bool_decide (method request = lit "POST")
  then
    handleScheduled fetch ai_run Date_now env;;
    ret (Response_json (TriggerPayload true (lit "Check triggered")) 200 corsHeaders)
  else ret (Response_json (ErrorPayload (lit "Not found")) 404 corsHeaders).

Definition handleRequest (request : HttpRequest) (env : Env) : M World HttpResponse :=
  if decide (method request = lit "OPTIONS") then ret (Response_null corsHeaders)
  else
    try_catch (routes request env)
      (fun error => ret (Response_json (ErrorPayload (error_message error)) 500 corsHeaders)).

End Api.

Arguments Date_ISO toISOString {World}.
Arguments settled {World A}.
Arguments routes toLowerCase decodeURIComponent toISOString {World}.
Arguments handleRequest toLowerCase decodeURIComponent toISOString {World}.

(** ** The earlier version of the worker: keywords as an array of strings *)

Module Legacy.

(** The namespace as the earlier version types it: the text under the
    keywords key is an array of strings. *)
Record KV := mkKV {
  KEYWORDS_KEY : option (list jsstring);
  LAST_CHECK_KEY : option Z
}.

Definition getKeywords (kv : KV) : list jsstring :=
  match KEYWORDS_KEY kv with
  | None => []
  | Some parsed => parsed
  end.

Definition addKeyword (toLowerCase : jsstring -> jsstring) (keyword : jsstring) (kv : KV)
    : Result (list jsstring) * KV :=
  let keywords := getKeywords kv in
  let normalized := toLowerCase (trim keyword) in
  if negb (truthy normalized) then (Throw (Error (lit "Keyword cannot be empty")), kv)
  else if decide (normalized ∈ keywords) then (Ok keywords, kv)
  else
    let keywords := keywords ++ [normalized] in
    (Ok keywords, mkKV (Some keywords) (LAST_CHECK_KEY kv)).

Definition removeKeyword (toLowerCase : jsstring -> jsstring) (keyword : jsstring) (kv : KV)
    : Result (list jsstring) * KV :=
  let keywords := getKeywords kv in
  let normalized := toLowerCase (trim keyword) in
  let filtered := filter (fun k => k ≠ normalized) keywords in
  (Ok filtered, mkKV (Some filtered) (LAST_CHECK_KEY kv)).

End Legacy.

(** A namespace written by the earlier version, as the current version finds
    it. *)
Definition found_by_current (kv : Legacy.KV) : KVNamespace :=
  mkKV (JsonStrings <$> Legacy.KEYWORDS_KEY kv) (Legacy.LAST_CHECK_KEY kv).

(** The entry the current version reads a string of the earlier format as. *)
Definition plain (keyword : jsstring) : KeywordConfig := mkKeywordConfig keyword None.

(** A state of the current version whose namespace was written by the
    earlier version. *)
Definition migrated {World} (kv : Legacy.KV) (s : State World) : State World :=
  set_HN_KV (found_by_current kv) s.

(** ** More definitions used by the statements *)

(** In [s] no [<] is followed, anywhere after it, by a [>]: the pattern
    [<[^>]*>] matches nowhere. *)
Definition tag_free (s : jsstring) : Prop :=
  ∀ before after, s = before ++ LT :: after → GT ∉ after.

(** A string that does not start with white space. *)
Definition clean_start (l : jsstring) : Prop :=
  match l with
  | ch :: _ => is_whitespace ch = false
  | [] => True
  end.

(** A string without white space at either end. *)
Definition trimmed (s : jsstring) : Prop := trim s = s.

(** The numbers of the last log line of a poll cycle add up: every id seen
    is either matched or filtered. *)
Definition counts_add_up {World} (s : State World) : Prop :=
  size (seenIds s) = length (matches s) + filteredCount s.

(** The [keywordCounts] of [formatBatchNotification], as an array of its
    entries. *)
Definition keywordCounts_of (matches : list MatchedHit) : list (jsstring * nat) :=
  fold_left
    (fun counts m =>
       Map_set counts (mkeyword m) (default 0 (Map_get counts (mkeyword m)) + 1))
    matches [].

Definition sum_counts (counts : list (jsstring * nat)) : nat :=
  foldr (fun e total => snd e + total) 0 counts.

(** The concrete engine functions of the runs: an identity decoder that
    rejects a lone [%], and a date text that is not looked at. *)
Definition demo_decode (s : jsstring) : Result jsstring :=
  if bool_decide (s = lit "%") then Throw (Error (lit "URI malformed")) else Ok s.

Definition demo_ISO (t : Z) : jsstring := lit "2023-11-14T22:13:20.000Z".

Definition GET_keywords : HttpRequest :=
  mkHttpRequest (lit "GET") (lit "/keywords") (Throw (Error (lit "Unexpected end of JSON input"))).

Definition POST_keywords (keyword : string) (context : option jsstring) : HttpRequest :=
  mkHttpRequest (lit "POST") (lit "/keywords") (Ok (mkPostBody (lit keyword) context)).

Definition DELETE_keyword (encoded : string) : HttpRequest :=
  mkHttpRequest (lit "DELETE") (lit "/keywords/" ++ lit encoded)
    (Throw (Error (lit "Unexpected end of JSON input"))).

Definition POST_trigger : HttpRequest :=
  mkHttpRequest (lit "POST") (lit "/trigger") (Throw (Error (lit "Unexpected end of JSON input"))).

(** The handler on the concrete world. *)
Definition demo_handle (request : HttpRequest) (s : State bool)
    : Result HttpResponse * State bool :=
  handleRequest toLowerCase_ascii demo_decode demo_ISO demo_fetch demo_ai_run demo_Date_now
    request demo_env s.

(** ** Properties *)

(** *** Strings *)

Lemma trimStart_clean l : clean_start (trimStart l).
Proof.
  induction l as [|ch l IH]; [done|]. cbn [trimStart].
  destruct (is_whitespace ch) eqn:E; [done|]. exact E.
Qed.

Lemma trimStart_id l : clean_start l → trimStart l = l.
Proof. destruct l as [|ch l]; [done|]. cbn. by intros ->. Qed.

Lemma trimStart_split l : ∃ ws, l = ws ++ trimStart l.
Proof.
  induction l as [|ch l [ws IH]]; [by exists []|]. cbn [trimStart].
  destruct (is_whitespace ch); [|by exists []].
  exists (ch :: ws). cbn. by rewrite <- IH.
Qed.

Lemma trim_trimmed l : trimmed (trim l).
Proof.
  unfold trimmed, trim.
  set (a := trimStart l). set (b := trimStart (rev a)).
  assert (clean_start (rev b)) as Hrb.
  { destruct (trimStart_split (rev a)) as [ws Hws]. fold b in Hws.
    assert (a = rev b ++ rev ws) as Ha
      by (by rewrite <- rev_app_distr, <- Hws, rev_involutive).
    pose proof (trimStart_clean l) as Hcl. fold a in Hcl.
    destruct (rev b) as [|ch t]; [done|]. rewrite Ha in Hcl. exact Hcl. }
  rewrite (trimStart_id _ Hrb), rev_involutive.
  by rewrite (trimStart_id b (trimStart_clean _)).
Qed.



Lemma strip_scan_no_gt txt : GT ∉ txt → strip_scan false txt = txt.
Proof.
  induction txt as [|ch r IH]; [done|]. intros Hout. cbn [strip_scan].
  unfold has_gt. rewrite bool_decide_eq_false_2 by (intros ?; apply Hout; by right).
  rewrite andb_false_r. rewrite IH; [done|]. intros ?. apply Hout. by right.
Qed.

Lemma strip_scan_tag_free (in_tag : bool) txt : tag_free (strip_scan in_tag txt).
Proof.
  revert in_tag. induction txt as [|ch r IH]; intros in_tag before after.
  { cbn. by destruct before. }
  cbn [strip_scan]. destruct in_tag.
  { destruct (ch =? GT)%N; apply IH. }
  destruct ((ch =? LT)%N && has_gt r) eqn:E.
  - destruct before as [|b before]; cbn; [intros [= Hb]; by vm_compute in Hb|].
    intros [= _ Hrest]. by apply (IH true before after).
  - destruct before as [|b before]; cbn.
    + intros [= -> Hrest]. rewrite N.eqb_refl in E. cbn in E.
      unfold has_gt in E. apply bool_decide_eq_false_1 in E.
      rewrite <- Hrest, strip_scan_no_gt by done. done.
    + intros [= _ Hrest]. by apply (IH false before after).
Qed.

Lemma tag_free_unchanged txt : tag_free txt → strip_scan false txt = txt.
Proof.
  induction txt as [|ch r IH]; [done|]. intros Hfree. cbn [strip_scan].
  assert (tag_free r) as Hr.
  { intros before after ->. by apply (Hfree (ch :: before) after). }
  destruct (N.eqb_spec ch LT) as [->|Hne]; cbn [andb]; [|by rewrite IH].
  unfold has_gt. rewrite bool_decide_eq_false_2 by (by apply (Hfree [] r)).
  by rewrite IH.
Qed.

Lemma strip_scan_length (in_tag : bool) txt : length (strip_scan in_tag txt) ≤ length txt.
Proof.
  revert in_tag. induction txt as [|ch r IH]; intros in_tag; [done|].
  cbn [strip_scan length]. destruct in_tag.
  - destruct (ch =? GT)%N; [specialize (IH false)|specialize (IH true)]; lia.
  - destruct ((ch =? LT)%N && has_gt r); cbn [length];
      [specialize (IH true)|specialize (IH false)]; lia.
Qed.

Lemma tag_free_take (n : nat) (text : jsstring) : tag_free text → tag_free (take n text).
Proof.
  intros Hfree before after Heq.
  assert (text = before ++ LT :: (after ++ drop n text)) as Htext.
  { rewrite <- (take_drop n text) at 1. rewrite Heq, <- app_assoc. reflexivity. }
  intros Hin. apply (Hfree _ _ Htext), elem_of_app. by left.
Qed.

Lemma tag_free_app (text tail : jsstring) :
  tag_free text → LT ∉ tail → GT ∉ tail → tag_free (text ++ tail).
Proof.
  intros Hfree Hlt Hgt before after Heq.
  apply app_eq_app in Heq as [l [[-> Heq]|[-> Heq]]].
  - destruct l as [|c l'].
    + cbn in Heq. destruct Hlt. rewrite <- Heq. left.
    + injection Heq as <- ->. intros [Hin|Hin]%elem_of_app; [|done].
      by apply (Hfree before l').
  - destruct Hlt. rewrite Heq. apply elem_of_app. right. left.
Qed.




Section Properties.

Context (toLowerCase : jsstring -> jsstring) {World : Type}.
Context (fetch : Request -> World -> Result Response * World).
Context (ai_run : jsstring -> AiInput -> World -> Result AiOutput * World).
Context (Date_now : World -> Z * World).

Implicit Types (s : State World) (k n : jsstring) (c : option jsstring).
Implicit Types (keywords : list KeywordConfig).

(** *** The keyword store *)

Lemma getKeywords_eq s : getKeywords s = (Ok (stored_keywords s), s).
Proof.
  unfold stored_keywords, getKeywords, bind, kv_get.
  destruct (KEYWORDS_KEY (HN_KV s)) as [[[|k0 l]|l]|]; reflexivity.
Qed.

Lemma stored_keywords_put keywords lc s :
  stored_keywords (set_HN_KV (mkKV (Some (JsonConfigs keywords)) lc) s) = keywords.
Proof. reflexivity. Qed.

Lemma addKeyword_eq k c s :
  toLowerCase (trim k) ≠ [] →
  let keywords := upsert (toLowerCase (trim k)) (trimContext c) (stored_keywords s) in
  addKeyword toLowerCase k c s
  = (Ok keywords, with_keywords (Some (JsonConfigs keywords)) s).
Proof.
  intros Hn. unfold addKeyword, bind. rewrite getKeywords_eq.
  destruct (toLowerCase (trim k)) as [|c0 n] eqn:E; [done|]. reflexivity.
Qed.

Lemma addKeyword_empty_eq k c s :
  toLowerCase (trim k) = [] →
  addKeyword toLowerCase k c s = (Throw (Error (lit "Keyword cannot be empty")), s).
Proof.
  intros Hn. unfold addKeyword, bind. rewrite getKeywords_eq, Hn. reflexivity.
Qed.

Lemma removeKeyword_eq k s :
  let filtered :=
    filter (fun e => ¬ keyword_is (toLowerCase (trim k)) e) (stored_keywords s) in
  removeKeyword toLowerCase k s
  = (Ok filtered, with_keywords (Some (JsonConfigs filtered)) s).
Proof. unfold removeKeyword, bind. rewrite getKeywords_eq. reflexivity. Qed.

Lemma upsert_nil n c : upsert n c [] = [mkKeywordConfig n c].
Proof. reflexivity. Qed.

Lemma upsert_cons n c e keywords :
  upsert n c (e :: keywords)
  = if decide (keyword_is n e) then set_context c e :: keywords
    else e :: upsert n c keywords.
Proof.
  unfold upsert. cbn [list_find]. case_decide; [reflexivity|].
  destruct (list_find (keyword_is n) keywords) as [[i x]|]; reflexivity.
Qed.

Lemma upsert_keywords_present n c keywords :
  n ∈ map keyword keywords →
  map keyword (upsert n c keywords) = map keyword keywords.
Proof.
  induction keywords as [|e l IH]; [by intros ?%elem_of_nil|].
  rewrite upsert_cons. case_decide as He; [reflexivity|].
  cbn [map]. intros [Hn|Hn]%elem_of_cons; [by destruct He|].
  by rewrite IH.
Qed.

Lemma upsert_keywords_fresh n c keywords :
  n ∉ map keyword keywords →
  upsert n c keywords = keywords ++ [mkKeywordConfig n c].
Proof.
  induction keywords as [|e l IH]; [reflexivity|].
  rewrite upsert_cons. cbn [map]. intros Hn.
  case_decide as He.
  - destruct Hn. rewrite <- He. left.
  - rewrite IH; [reflexivity|]. intros ?. apply Hn. by right.
Qed.

Lemma upsert_NoDup n c keywords :
  NoDup (map keyword keywords) → NoDup (map keyword (upsert n c keywords)).
Proof.
  intros Hnd. destruct (decide (n ∈ map keyword keywords)) as [Hin|Hout].
  - by rewrite upsert_keywords_present.
  - rewrite upsert_keywords_fresh by done.
    rewrite map_app. cbn [map keyword].
    apply NoDup_app. split_and!; [done| |apply NoDup_singleton].
    intros x Hx ->%list_elem_of_singleton. done.
Qed.

Lemma filter_NoDup_keywords (P : KeywordConfig → Prop) `{∀ e, Decision (P e)} keywords :
  NoDup (map keyword keywords) → NoDup (map keyword (filter P keywords)).
Proof.
  induction keywords as [|e l IH]; [done|].
  cbn [map]. intros [Hn Hl]%NoDup_cons.
  rewrite filter_cons. case_decide; [|by apply IH].
  cbn [map]. apply NoDup_cons. split; [|by apply IH].
  intros Hin. apply Hn.
  apply list_elem_of_fmap in Hin as (e' & -> & He'%list_elem_of_filter).
  apply list_elem_of_fmap. exists e'. by destruct He'.
Qed.

Lemma upsert_twice n c1 c2 keywords :
  upsert n c2 (upsert n c1 keywords) = upsert n c2 keywords.
Proof.
  induction keywords as [|e l IH].
  - rewrite upsert_nil, upsert_cons. by rewrite decide_True.
  - rewrite !upsert_cons. case_decide as He.
    + rewrite upsert_cons. by rewrite decide_True.
    + rewrite upsert_cons. rewrite decide_False by done. by rewrite IH.
Qed.

Lemma upsert_unique n c keywords :
  length (filter (keyword_is n) keywords) ≤ 1 →
  length (filter (keyword_is n) (upsert n c keywords)) = 1
  ∧ ∀ e, e ∈ upsert n c keywords → keyword e = n → context e = c.
Proof.
  induction keywords as [|x l IH]; intros Hle.
  - rewrite upsert_nil. rewrite filter_cons, decide_True by done.
    split; [reflexivity|]. by intros e ->%list_elem_of_singleton.
  - rewrite upsert_cons. rewrite filter_cons in Hle. case_decide as Hx.
    + cbn [length] in Hle.
      assert (filter (keyword_is n) l = []) as Hnil
        by (apply length_zero_iff_nil; lia).
      rewrite filter_cons, decide_True by done. rewrite Hnil. split; [reflexivity|].
      intros e [->|He]%elem_of_cons Hk; [reflexivity|].
      assert (e ∈ filter (keyword_is n) l) as Hin by (by apply list_elem_of_filter).
      rewrite Hnil in Hin. by apply elem_of_nil in Hin.
    + destruct (IH Hle) as [Hlen Hctx].
      rewrite filter_cons, decide_False by done. split; [done|].
      intros e [->|He]%elem_of_cons Hk; [done|]. by apply Hctx.
Qed.

Lemma upsert_position n c keywords :
  match list_find (keyword_is n) keywords with
  | Some (i, _) => upsert n c keywords = <[i := mkKeywordConfig n c]> keywords
  | None => upsert n c keywords = keywords ++ [mkKeywordConfig n c]
  end.
Proof.
  unfold upsert.
  destruct (list_find (keyword_is n) keywords) as [[i x]|] eqn:E; [|reflexivity].
  apply list_find_Some in E as (_ & Hx & _).
  unfold set_context. by rewrite Hx.
Qed.

(** C7.  On a legacy array of strings [getKeywords] returns one entry per
    element, in order, with that string as keyword and no context; on a
    missing value it returns the empty sequence; and in every state it
    leaves the state, the KV namespace included, as it found it. *)
Theorem getKeywords_legacy_absent_read_only s (legacy : list jsstring) :
  getKeywords (with_keywords (Some (JsonStrings legacy)) s)
  = (Ok (map (fun e => mkKeywordConfig e None) legacy),
     with_keywords (Some (JsonStrings legacy)) s)
  ∧ getKeywords (with_keywords None s) = (Ok [], with_keywords None s)
  ∧ snd (getKeywords s) = s.
Proof.
  split_and!.
  - destruct legacy; reflexivity.
  - reflexivity.
  - by rewrite getKeywords_eq.
Qed.

(** C10.  When the trimmed, lowercased keyword is empty, [addKeyword] throws
    "Keyword cannot be empty" and the state, so the persisted keyword list,
    is the one it started from. *)
Theorem addKeyword_empty_keyword_rejected k c s :
  toLowerCase (trim k) = [] →
  addKeyword toLowerCase k c s = (Throw (Error (lit "Keyword cannot be empty")), s).
Proof.
  intros Hempty. unfold addKeyword, bind.
  rewrite getKeywords_eq. cbn [fst snd]. rewrite Hempty. cbn [truthy negb].
  reflexivity.
Qed.

Lemma unique_insensitive_normalized keywords :
  Forall (normalized_entry toLowerCase) keywords →
  unique_insensitive toLowerCase keywords ↔ NoDup (map keyword keywords).
Proof.
  intros Hnorm. unfold unique_insensitive.
  assert (map (fun e => toLowerCase (trim (keyword e))) keywords = map keyword keywords)
    as ->; [|done].
  induction Hnorm as [|e l [He _] _ IH]; [done|]. cbn [map]. by rewrite He, IH.
Qed.

Lemma upsert_normalized n c keywords :
  toLowerCase (trim n) = n → n ≠ [] →
  Forall (normalized_entry toLowerCase) keywords →
  Forall (normalized_entry toLowerCase) (upsert n c keywords).
Proof.
  intros Hn Hne Hnorm. induction Hnorm as [|e l He Hl IH].
  - rewrite upsert_nil. by repeat constructor.
  - rewrite upsert_cons. case_decide; constructor; done.
Qed.

(** C9.  On a stored sequence of normalized entries with pairwise distinct
    keywords, the sequences [addKeyword] and [removeKeyword] persist and
    return have pairwise distinct keywords too; and they keep the invariant
    itself: their entries are normalized again, so their keywords are
    distinct without regard to case and to white space around them.  For
    [addKeyword] this takes a keyword whose normalization is left as it is
    by normalizing it again, as lowercasing by the engine leaves it. *)
Theorem add_remove_keep_keywords_distinct k c s :
  Forall (normalized_entry toLowerCase) (stored_keywords s) →
  NoDup (map keyword (stored_keywords s)) →
  (NoDup (map keyword (stored_keywords (snd (addKeyword toLowerCase k c s))))
   ∧ (∀ returned, fst (addKeyword toLowerCase k c s) = Ok returned →
        NoDup (map keyword returned))
   ∧ (toLowerCase (trim (toLowerCase (trim k))) = toLowerCase (trim k) →
      uniqueness_invariant toLowerCase
        (stored_keywords (snd (addKeyword toLowerCase k c s)))
      ∧ ∀ returned, fst (addKeyword toLowerCase k c s) = Ok returned →
          uniqueness_invariant toLowerCase returned))
  ∧ (NoDup (map keyword (stored_keywords (snd (removeKeyword toLowerCase k s))))
     ∧ (∀ returned, fst (removeKeyword toLowerCase k s) = Ok returned →
          NoDup (map keyword returned))
     ∧ uniqueness_invariant toLowerCase
         (stored_keywords (snd (removeKeyword toLowerCase k s)))
     ∧ ∀ returned, fst (removeKeyword toLowerCase k s) = Ok returned →
         uniqueness_invariant toLowerCase returned).
Proof.
  intros Hnorm Hnd.
  assert (∀ keywords, Forall (normalized_entry toLowerCase) keywords →
            NoDup (map keyword keywords) → uniqueness_invariant toLowerCase keywords)
    as Hinv.
  { intros keywords ? ?. split; [done|]. by apply unique_insensitive_normalized. }
  split.
  - destruct (decide (toLowerCase (trim k) = [])) as [Hn|Hn].
    + rewrite addKeyword_empty_eq by done. cbn [fst snd].
      split_and!; [done|intros ? [=]|]. intros _. split; [by apply Hinv|intros ? [=]].
    + rewrite addKeyword_eq by done. cbn [fst snd].
      unfold with_keywords. rewrite stored_keywords_put.
      split_and!; [by apply upsert_NoDup|intros ? [= <-]; by apply upsert_NoDup|].
      intros Hstable.
      assert (uniqueness_invariant toLowerCase
                (upsert (toLowerCase (trim k)) (trimContext c) (stored_keywords s)))
        as Hupsert.
      { apply Hinv; [by apply upsert_normalized|by apply upsert_NoDup]. }
      split; [done|]. by intros ? [= <-].
  - rewrite removeKeyword_eq. cbn [fst snd].
    unfold with_keywords. rewrite stored_keywords_put.
    assert (uniqueness_invariant toLowerCase
              (filter (fun e => ¬ keyword_is (toLowerCase (trim k)) e) (stored_keywords s)))
      as Hfilter.
    { apply Hinv; [|by apply filter_NoDup_keywords].
      rewrite Forall_forall in Hnorm. apply Forall_forall.
      intros e [_ He]%list_elem_of_filter. by apply Hnorm. }
    split_and!; [by apply filter_NoDup_keywords| |done|by intros ? [= <-]].
    intros ? [= <-]. by apply filter_NoDup_keywords.
Qed.

(** C3, amended.  When at most one stored entry has the normalized keyword
    [n], and [n] is not empty, [add(k, c1)] then [add(k, c2)] both return,
    the second returns the stored sequence, and that sequence has exactly
    one entry with keyword [n], whose context is the trimmed [c2] (none when
    [c2] is blank or omitted); the entry is at the position of the entry
    with keyword [n] that was there before, the rest unchanged, or else at
    the end. *)
Theorem addKeyword_twice_upserts k c1 c2 s :
  let n := toLowerCase (trim k) in
  n ≠ [] →
  length (filter (keyword_is n) (stored_keywords s)) ≤ 1 →
  let stored := stored_keywords (add_twice toLowerCase k c1 c2 s) in
  fst (addKeyword toLowerCase k c2 (snd (addKeyword toLowerCase k c1 s))) = Ok stored
  ∧ length (filter (keyword_is n) stored) = 1
  ∧ (∀ e, e ∈ stored → keyword e = n → context e = trimContext c2)
  ∧ match list_find (keyword_is n) (stored_keywords s) with
    | Some (i, _) =>
        stored = <[i := mkKeywordConfig n (trimContext c2)]> (stored_keywords s)
    | None => stored = stored_keywords s ++ [mkKeywordConfig n (trimContext c2)]
    end.
Proof.
  intros n Hn Hle stored. subst stored. unfold add_twice.
  rewrite (addKeyword_eq k c1 s) by done. cbn [snd].
  rewrite (addKeyword_eq k c2) by done. cbn [fst snd].
  unfold with_keywords. cbn [HN_KV set_HN_KV LAST_CHECK_KEY].
  rewrite !stored_keywords_put. fold n. rewrite upsert_twice.
  destruct (upsert_unique n (trimContext c2) _ Hle) as [Hlen Hctx].
  split_and!; [reflexivity|done|done|apply upsert_position].
Qed.

(** *** The poll cycle: what each call leaves unchanged *)

Lemma call_fetch_eq req s :
  call_fetch fetch req s
  = (fst (fetch req (world s)),
     mkState (HN_KV s) (snd (fetch req (world s))) (requests s ++ [req])
             (seenIds s) (matches s) (filteredCount s)).
Proof. unfold call_fetch. by destruct (fetch req (world s)). Qed.

Lemma call_ai_run_eq model input s :
  call_ai_run ai_run model input s
  = (fst (ai_run model input (world s)),
     mkState (HN_KV s) (snd (ai_run model input (world s))) (requests s)
             (seenIds s) (matches s) (filteredCount s)).
Proof. unfold call_ai_run. by destruct (ai_run model input (world s)). Qed.

Lemma searchHN_frame q t s :
  let s' := snd (searchHN fetch q t s) in
  HN_KV s' = HN_KV s
  ∧ requests s' = requests s ++ [SearchByDate q (lit "created_at_i>" ++ Number_toString t) (lit "50")]
  ∧ seenIds s' = seenIds s ∧ matches s' = matches s
  ∧ filteredCount s' = filteredCount s.
Proof.
  unfold searchHN, bind. rewrite call_fetch_eq.
  destruct (fetch _ (world s)) as [[resp|e] w]; cbn; [|done].
  destruct (ok resp); cbn; [|done]. by destruct (json resp).
Qed.

Lemma checkRelevance_frame ctx h s :
  let s' := snd (checkRelevance ai_run ctx h s) in
  s' = mkState (HN_KV s) (world s') (requests s) (seenIds s) (matches s)
               (filteredCount s).
Proof.
  unfold checkRelevance, bind.
  destruct (negb (truthy (trim (relevance_content h)))); cbn; [by destruct s|].
  rewrite call_ai_run_eq. by destruct (ai_run _ _ (world s)) as [[out|e] w].
Qed.

(** *** One hit *)

Lemma scanHit_seen kc h s :
  objectID h ∈ seenIds s → scanHit ai_run kc h s = (Ok tt, s).
Proof. intros Hin. unfold scanHit, bind, get_seenIds. by rewrite decide_True. Qed.

Lemma scanHit_fresh kc h s :
  objectID h ∉ seenIds s →
  let m := mkMatchedHit (keyword kc) h in
  let s1 := snd (seenIds_add (objectID h) s) in
  scanHit ai_run kc h s
  = if otruthy (context kc) then
      match checkRelevance ai_run (default [] (context kc)) h s1 with
      | (Ok score, s2) =>
          if Qltb score RELEVANCE_THRESHOLD then (Ok tt, snd (filteredCount_incr s2))
          else (Ok tt, snd (matches_push m s2))
      | (Throw e, s2) => (Ok tt, snd (matches_push m s2))
      end
    else (Ok tt, snd (matches_push m s1)).
Proof.
  intros Hout. unfold scanHit, bind at 1, get_seenIds. rewrite decide_False by done.
  unfold bind at 1. cbn [seenIds_add snd]. unfold bind at 1, try_catch.
  destruct (otruthy (context kc)); [|reflexivity].
  unfold bind at 1.
  destruct (checkRelevance _ _ _ _) as [[sc|e] s2]; [|reflexivity].
  by destruct (Qltb sc RELEVANCE_THRESHOLD).
Qed.

Lemma scanHit_fresh_context kc h s ctx :
  objectID h ∉ seenIds s → context kc = Some ctx → ctx ≠ [] →
  let m := mkMatchedHit (keyword kc) h in
  scanHit ai_run kc h s
  = match checkRelevance ai_run ctx h (snd (seenIds_add (objectID h) s)) with
    | (Ok score, s2) =>
        if Qltb score RELEVANCE_THRESHOLD then (Ok tt, snd (filteredCount_incr s2))
        else (Ok tt, snd (matches_push m s2))
    | (Throw e, s2) => (Ok tt, snd (matches_push m s2))
    end.
Proof.
  intros Hfresh Hctx Hne. rewrite scanHit_fresh by done. rewrite Hctx.
  by destruct ctx.
Qed.

Lemma scanHit_total kc h s : fst (scanHit ai_run kc h s) = Ok tt.
Proof.
  destruct (decide (objectID h ∈ seenIds s)) as [Hin|Hout].
  - by rewrite scanHit_seen.
  - rewrite scanHit_fresh by done.
    destruct (otruthy (context kc)); [|done].
    destruct (checkRelevance _ _ _ _) as [[sc|e] s2]; [|done].
    by destruct (Qltb sc RELEVANCE_THRESHOLD).
Qed.

Lemma scanHit_spec kc h s :
  batch_ok s →
  let s' := snd (scanHit ai_run kc h s) in
  batch_ok s'
  ∧ seenIds s' = {[objectID h]} ∪ seenIds s
  ∧ matches s `prefix_of` matches s'
  ∧ (∀ m, m ∈ matches s' →
       m ∈ matches s ∨ (m = mkMatchedHit (keyword kc) h ∧ objectID h ∉ seenIds s))
  ∧ HN_KV s' = HN_KV s ∧ requests s' = requests s.
Proof.
  intros [Hnd Hseen].
  destruct (decide (objectID h ∈ seenIds s)) as [Hin|Hout].
  { rewrite scanHit_seen by done. cbn [snd].
    split_and!; [done| |done|by left|done|done].
    symmetry. apply subseteq_union_1_L. by apply singleton_subseteq_l. }
  rewrite scanHit_fresh by done.
  assert (∀ s2,
    s2 = mkState (HN_KV s) (world s2) (requests s) ({[objectID h]} ∪ seenIds s)
                 (matches s) (filteredCount s) →
    let s' := snd (matches_push (mkMatchedHit (keyword kc) h) s2) in
    batch_ok s' ∧ seenIds s' = {[objectID h]} ∪ seenIds s
    ∧ matches s `prefix_of` matches s'
    ∧ (∀ m, m ∈ matches s' →
         m ∈ matches s ∨ (m = mkMatchedHit (keyword kc) h ∧ objectID h ∉ seenIds s))
    ∧ HN_KV s' = HN_KV s ∧ requests s' = requests s) as Hpush.
  { intros s2 ->. cbn. split_and!; try done.
    - split; cbn.
      + rewrite map_app. cbn. apply NoDup_app. split_and!; [done| |apply NoDup_singleton].
        intros id Hid ->%list_elem_of_singleton.
        apply list_elem_of_fmap in Hid as (m & Hm & Hin). apply Hout. rewrite Hm. by apply Hseen.
      + intros m [Hm| ->%list_elem_of_singleton]%elem_of_app; cbn; [|set_solver].
        apply elem_of_union_r. by apply Hseen.
    - by apply prefix_app_r.
    - intros m [Hm| ->%list_elem_of_singleton]%elem_of_app; [by left|by right]. }
  assert (∀ s2,
    s2 = mkState (HN_KV s) (world s2) (requests s) ({[objectID h]} ∪ seenIds s)
                 (matches s) (filteredCount s) →
    let s' := snd (filteredCount_incr s2) in
    batch_ok s' ∧ seenIds s' = {[objectID h]} ∪ seenIds s
    ∧ matches s `prefix_of` matches s'
    ∧ (∀ m, m ∈ matches s' →
         m ∈ matches s ∨ (m = mkMatchedHit (keyword kc) h ∧ objectID h ∉ seenIds s))
    ∧ HN_KV s' = HN_KV s ∧ requests s' = requests s) as Hdrop.
  { intros s2 ->. cbn. split_and!; try done; [|by left].
    split; cbn; [done|]. intros m Hm. apply elem_of_union_r. by apply Hseen. }
  destruct (otruthy (context kc)).
  - pose proof (checkRelevance_frame (default [] (context kc)) h
                  (snd (seenIds_add (objectID h) s))) as Hfr.
    destruct (checkRelevance _ _ _ _) as [[sc|e] s2]; cbn in Hfr.
    + destruct (Qltb sc RELEVANCE_THRESHOLD); [by apply Hdrop|by apply Hpush].
    + by apply Hpush.
  - apply Hpush. by destruct s.
Qed.

(** *** Loops whose body does not throw *)

Lemma for_of_total {A} (body : A → M World ()) items s :
  (∀ x s, fst (body x s) = Ok tt) →
  for_of items body s = (Ok tt, fold_left (fun s x => snd (body x s)) items s).
Proof.
  intros Hbody. revert s. induction items as [|x rest IH]; intros s; [reflexivity|].
  cbn [for_of fold_left]. unfold bind.
  specialize (Hbody x s). destruct (body x s) as [[[]|e] s1]; [|done].
  apply IH.
Qed.

Lemma scanKeyword_eq lastCheck kc s :
  scanKeyword fetch ai_run lastCheck kc s
  = (Ok tt,
     match searchHN fetch (keyword kc) lastCheck s with
     | (Ok found, s1) => snd (for_of found (scanHit ai_run kc) s1)
     | (Throw _, s1) => s1
     end).
Proof.
  unfold scanKeyword, try_catch, bind.
  destruct (searchHN fetch (keyword kc) lastCheck s) as [[found|e] s1]; [|reflexivity].
  rewrite for_of_total by apply scanHit_total. reflexivity.
Qed.

Lemma scanKeywords_eq kws lastCheck s :
  scanKeywords fetch ai_run kws lastCheck s
  = (Ok tt, fold_left (fun s kc => snd (scanKeyword fetch ai_run lastCheck kc s)) kws s).
Proof.
  unfold scanKeywords. apply for_of_total. intros kc s'. by rewrite scanKeyword_eq.
Qed.

(** *** The hits of one keyword *)

Lemma scanHits_spec kc found s :
  batch_ok s →
  let s' := snd (for_of found (scanHit ai_run kc) s) in
  batch_ok s'
  ∧ seenIds s' = list_to_set (map objectID found) ∪ seenIds s
  ∧ matches s `prefix_of` matches s'
  ∧ (∀ m, m ∈ matches s' →
       m ∈ matches s
       ∨ (mkeyword m = keyword kc ∧ first_with_id (hit m) found
          ∧ objectID (hit m) ∉ seenIds s))
  ∧ HN_KV s' = HN_KV s ∧ requests s' = requests s.
Proof.
  rewrite for_of_total by apply scanHit_total. cbn [snd].
  revert s. induction found as [|h rest IH]; intros s Hok; cbn [fold_left].
  { split_and!; [done|cbn; by rewrite union_empty_l_L|done|by left|done|done]. }
  destruct (scanHit_spec kc h s Hok) as (Hok1 & Hseen1 & Hpre1 & Hm1 & Hkv1 & Hrq1).
  destruct (IH _ Hok1) as (Hok' & Hseen' & Hpre' & Hm' & Hkv' & Hrq').
  split_and!.
  - done.
  - rewrite Hseen', Hseen1. cbn [map list_to_set].
    by rewrite (assoc_L (∪)), (comm_L (∪) (list_to_set _)).
  - by etrans.
  - intros m [Hm|(Hk & Hin & Hfresh)]%Hm'.
    + destruct (Hm1 m Hm) as [?|[-> ?]]; [by left|]. right. cbn.
      split_and!; [done| |done]. exists [], rest. split; [done|]. apply not_elem_of_nil.
    + right. rewrite Hseen1 in Hfresh. destruct Hin as (before & after & -> & Hbefore).
      split_and!; [done| |].
      * exists (h :: before), after. split; [done|]. cbn [map].
        intros [Hid|?]%elem_of_cons; [|done].
        apply Hfresh, elem_of_union_l, elem_of_singleton. done.
      * intros ?. apply Hfresh. by apply elem_of_union_r.
  - by rewrite Hkv'.
  - by rewrite Hrq'.
Qed.

(** *** One keyword *)

Lemma scanKeyword_spec lastCheck kc s :
  batch_ok s →
  let s' := snd (scanKeyword fetch ai_run lastCheck kc s) in
  let outcome := fst (searchHN fetch (keyword kc) lastCheck s) in
  batch_ok s'
  ∧ seenIds s ⊆ seenIds s'
  ∧ (∀ found h, outcome = Ok found → h ∈ found → objectID h ∈ seenIds s')
  ∧ matches s `prefix_of` matches s'
  ∧ (∀ m, m ∈ matches s' →
       m ∈ matches s
       ∨ (mkeyword m = keyword kc ∧ (objectID (hit m) ∉ seenIds s)
          ∧ (∃ found, outcome = Ok found ∧ first_with_id (hit m) found)))
  ∧ HN_KV s' = HN_KV s
  ∧ requests s' = requests s ++ [search_request lastCheck kc]
  ∧ (∀ id, id ∈ seenIds s' →
       id ∈ seenIds s ∨ ∃ found, outcome = Ok found ∧ id ∈ map objectID found).
Proof.
  intros Hok. rewrite scanKeyword_eq. cbn [snd].
  destruct (searchHN_frame (keyword kc) lastCheck s) as (Hkv & Hrq & Hseen & Hms & Hfc).
  destruct (searchHN fetch (keyword kc) lastCheck s) as [[found|e] s1]; cbn [fst snd] in *.
  - assert (batch_ok s1) as Hok1.
    { destruct Hok as [Hnd Hs]. split; [by rewrite Hms|].
      intros m. rewrite Hms, Hseen. apply Hs. }
    destruct (scanHits_spec kc found s1 Hok1) as (Hok' & Hseen' & Hpre' & Hm' & Hkv' & Hrq').
    split_and!.
    + done.
    + rewrite Hseen', Hseen. apply union_subseteq_r.
    + intros ? h [= <-] Hh. rewrite Hseen'. apply elem_of_union_l.
      apply elem_of_list_to_set, list_elem_of_fmap. by exists h.
    + by rewrite <- Hms.
    + intros m [Hm|(Hk & Hin & Hfresh)]%Hm'; [left; by rewrite <- Hms|].
      right. split_and!; [done|by rewrite <- Hseen|by exists found].
    + by rewrite Hkv'.
    + by rewrite Hrq'.
    + intros id. rewrite Hseen', Hseen.
      intros [Hid%elem_of_list_to_set|?]%elem_of_union; [right; by exists found|by left].
  - split_and!.
    + destruct Hok as [Hnd Hs]. split; [by rewrite Hms|].
      intros m. rewrite Hms, Hseen. apply Hs.
    + by rewrite Hseen.
    + intros ? h [=].
    + by rewrite Hms.
    + intros m Hm. left. by rewrite <- Hms.
    + done.
    + done.
    + intros id. rewrite Hseen. by left.
Qed.

(** *** The loop over the keywords *)

Lemma scanned_0 lastCheck kws s0 : scanned fetch ai_run lastCheck kws 0 s0 = s0.
Proof. reflexivity. Qed.

Lemma scanned_cons lastCheck kc rest i s0 :
  scanned fetch ai_run lastCheck (kc :: rest) (S i) s0
  = scanned fetch ai_run lastCheck rest i (snd (scanKeyword fetch ai_run lastCheck kc s0)).
Proof. unfold scanned. cbn [take]. by rewrite !scanKeywords_eq. Qed.

Lemma scanned_S lastCheck kws i kc s0 :
  kws !! i = Some kc →
  scanned fetch ai_run lastCheck kws (S i) s0
  = snd (scanKeyword fetch ai_run lastCheck kc (scanned fetch ai_run lastCheck kws i s0)).
Proof.
  intros Hi. unfold scanned. rewrite (take_S_r _ _ _ Hi), !scanKeywords_eq.
  cbn [snd]. by rewrite fold_left_app.
Qed.

Lemma scanned_all lastCheck kws s0 :
  snd (scanKeywords fetch ai_run kws lastCheck s0)
  = scanned fetch ai_run lastCheck kws (length kws) s0.
Proof. unfold scanned. by rewrite firstn_all. Qed.

Lemma scanned_rest lastCheck kws i s0 :
  snd (scanKeywords fetch ai_run kws lastCheck s0)
  = snd (scanKeywords fetch ai_run (drop i kws) lastCheck
           (scanned fetch ai_run lastCheck kws i s0)).
Proof.
  unfold scanned. rewrite !scanKeywords_eq. cbn [snd].
  by rewrite <- fold_left_app, take_drop.
Qed.

Lemma scanKeywords_spec lastCheck kws s0 :
  batch_ok s0 →
  let sf := snd (scanKeywords fetch ai_run kws lastCheck s0) in
  batch_ok sf
  ∧ seenIds s0 ⊆ seenIds sf
  ∧ matches s0 `prefix_of` matches sf
  ∧ HN_KV sf = HN_KV s0
  ∧ requests sf = requests s0 ++ map (search_request lastCheck) kws
  ∧ ∀ m, m ∈ matches sf →
      m ∈ matches s0
      ∨ ((objectID (hit m) ∉ seenIds s0)
         ∧ (∃ i kc found,
             kws !! i = Some kc ∧ mkeyword m = keyword kc
             ∧ search_outcome fetch ai_run lastCheck kws i kc s0 = Ok found
             ∧ first_with_id (hit m) found
             ∧ ∀ j kc' found', j < i → kws !! j = Some kc' →
                 search_outcome fetch ai_run lastCheck kws j kc' s0 = Ok found' →
                 objectID (hit m) ∉ map objectID found')).
Proof.
  revert s0. induction kws as [|kc rest IH]; intros s0 Hok.
  { cbn. split_and!; [done|done|done|done|by rewrite app_nil_r|by left]. }
  assert (snd (scanKeywords fetch ai_run (kc :: rest) lastCheck s0)
          = snd (scanKeywords fetch ai_run rest lastCheck
                   (snd (scanKeyword fetch ai_run lastCheck kc s0)))) as ->
    by (by rewrite !scanKeywords_eq).
  destruct (scanKeyword_spec lastCheck kc s0 Hok)
    as (Hok1 & Hsub1 & Hret1 & Hpre1 & Hm1 & Hkv1 & Hrq1 & _).
  destruct (IH _ Hok1) as (Hokf & Hsubf & Hpref & Hkvf & Hrqf & Hmf).
  split_and!.
  - done.
  - by etrans.
  - by etrans.
  - by rewrite Hkvf.
  - rewrite Hrqf, Hrq1. cbn [map]. by rewrite <- app_assoc.
  - intros m [Hm|(Hfresh & i & kc2 & found & Hi & Hk & Hout & Hin & Hearlier)]%Hmf.
    + destruct (Hm1 m Hm) as [?|(Hk & Hfresh & found & Hout & Hin)]; [by left|].
      right. split; [done|]. exists 0, kc, found.
      split_and!; [done|done|done|done|]. intros j ? ? Hj. lia.
    + right. split; [intros ?; apply Hfresh; by apply Hsub1|].
      exists (S i), kc2, found. split_and!; [done|done| |done|].
      * unfold search_outcome. by rewrite scanned_cons.
      * intros [|j] kc' found' Hj Hkc' Hout'.
        -- cbn in Hkc'. injection Hkc' as <-.
           unfold search_outcome in Hout'. rewrite scanned_0 in Hout'.
           intros (h & Hid & Hh)%list_elem_of_fmap. apply Hfresh. rewrite Hid.
           by apply (Hret1 found').
        -- apply (Hearlier j kc' found'); [lia|done|].
           unfold search_outcome in *. by rewrite scanned_cons in Hout'.
Qed.

(** *** The relevance filter *)






(** C5.  A hit not seen before, under a keyword with a (non-empty) context,
    whose relevance check throws: the iteration does not throw, the hit is
    pushed on the batch, nothing is counted as filtered, and the loop goes
    on with the hits that follow. *)
Theorem scorer_failure_fails_open kc h s ctx e s2 :
  objectID h ∉ seenIds s →
  context kc = Some ctx → ctx ≠ [] →
  checkRelevance ai_run ctx h (snd (seenIds_add (objectID h) s)) = (Throw e, s2) →
  let s' := snd (scanHit ai_run kc h s) in
  fst (scanHit ai_run kc h s) = Ok tt
  ∧ matches s' = matches s ++ [mkMatchedHit (keyword kc) h]
  ∧ filteredCount s' = filteredCount s
  ∧ ∀ rest, for_of (h :: rest) (scanHit ai_run kc) s = for_of rest (scanHit ai_run kc) s'.
Proof.
  intros Hfresh Hctx Hne Hrun s'. subst s'.
  pose proof (checkRelevance_frame ctx h (snd (seenIds_add (objectID h) s))) as Hfr.
  pose proof (scanHit_total kc h s) as Htot.
  split; [done|].
  split_and!.
  - rewrite (scanHit_fresh_context kc h s ctx) by done.
    rewrite Hrun in *. cbn [snd] in Hfr. rewrite Hfr. by cbn.
  - rewrite (scanHit_fresh_context kc h s ctx) by done.
    rewrite Hrun in *. cbn [snd] in Hfr. rewrite Hfr. by cbn.
  - intros rest. cbn [for_of]. unfold bind.
    destruct (scanHit ai_run kc h s) as [[[]|e'] s1]; [reflexivity|discriminate].
Qed.

(** The relevance check throws exactly when the model is called, on a
    snippet that is not blank, and throws. *)
Lemma checkRelevance_throws ctx h s e s2 :
  checkRelevance ai_run ctx h s = (Throw e, s2) ↔
  trim (relevance_content h) ≠ []
  ∧ call_ai_run ai_run (lit "@cf/baai/bge-reranker-base")
      (mkAiInput ctx [relevance_content h]) s = (Throw e, s2).
Proof.
  unfold checkRelevance, bind.
  destruct (trim (relevance_content h)) as [|c0 t] eqn:E; cbn [truthy negb].
  - split; [intros [=]|by intros [? _]].
  - destruct (call_ai_run _ _ _ _) as [[out|e'] s3]; cbn; split.
    + intros [=].
    + by intros [_ [=]].
    + intros [= <- <-]. done.
    + by intros [_ [= <- <-]].
Qed.

(** *** The poll cycle *)

Lemma getLastCheckTimestamp_eq s :
  getLastCheckTimestamp Date_now s
  = (Ok (cycle_lastCheck Date_now s), snd (getLastCheckTimestamp Date_now s)).
Proof.
  unfold cycle_lastCheck, getLastCheckTimestamp, bind, kv_get, call_Date_now.
  destruct (LAST_CHECK_KEY (HN_KV s)); [reflexivity|].
  by destruct (Date_now (world s)).
Qed.

Lemma getLastCheckTimestamp_frame s :
  let s' := snd (getLastCheckTimestamp Date_now s) in
  s' = mkState (HN_KV s) (world s') (requests s) (seenIds s) (matches s)
               (filteredCount s).
Proof.
  unfold getLastCheckTimestamp, bind, kv_get, call_Date_now.
  destruct (LAST_CHECK_KEY (HN_KV s)); [by destruct s|].
  by destruct (Date_now (world s)).
Qed.

Lemma handleScheduled_skips env s :
  stored_keywords s = [] ∨ otruthy (NTFY_TOPIC env) = false →
  handleScheduled fetch ai_run Date_now env s = (Ok tt, s).
Proof.
  intros Hskip. unfold handleScheduled, bind at 1. rewrite getKeywords_eq.
  destruct (stored_keywords s) as [|kc rest]; [reflexivity|].
  destruct Hskip as [?| ->]; [done|]. reflexivity.
Qed.

Lemma handleScheduled_eq env s :
  stored_keywords s ≠ [] → otruthy (NTFY_TOPIC env) = true →
  handleScheduled fetch ai_run Date_now env s
  = if decide (8640000000000000 < Z.abs (cycle_lastCheck Date_now s * 1000))%Z then
      (Throw (Error (lit "Invalid time value")),
       snd (call_Date_now Date_now (snd (getLastCheckTimestamp Date_now s))))
    else
      let se := scan_end fetch ai_run Date_now s in
      match matches se with
      | [] => setLastCheckTimestamp (cycle_now Date_now s) se
      | _ :: _ =>
          bind (call_fetch fetch (notification_request env (matches se)))
               (fun _ => setLastCheckTimestamp (cycle_now Date_now s)) se
      end.
Proof.
  intros Hkws Htopic. unfold handleScheduled, bind at 1. rewrite getKeywords_eq.
  rewrite decide_False by (by destruct (stored_keywords s)).
  rewrite Htopic. cbn [negb].
  unfold bind at 1. rewrite getLastCheckTimestamp_eq.
  unfold scan_end, scan_start, cycle_now.
  set (s1 := snd (getLastCheckTimestamp Date_now s)).
  cbn [snd]. unfold bind at 1, call_Date_now.
  destruct (Date_now (world s1)) as [ms w2]. cbn [fst snd].
  unfold bind at 1, Date_toISOString.
  case_decide; [reflexivity|]. cbn [ret].
  unfold bind at 1. cbn [init_locals snd].
  unfold bind at 1. rewrite scanKeywords_eq. cbn [fst snd].
  unfold bind at 1, get_matches.
  set (se := fold_left _ _ _).
  destruct (matches se) as [|first rest] eqn:Hms; [reflexivity|].
  unfold bind at 1. unfold sendNotification, notification_request.
  destruct (formatBatchNotification (first :: rest)) as [ttl body]. cbn [fst snd truthy ITEM_URL lit app].
  unfold bind. destruct (call_fetch fetch _ se) as [[resp|e] sn]; reflexivity.
Qed.

Lemma handleScheduled_completed env s s' :
  handleScheduled fetch ai_run Date_now env s = (Ok tt, s') →
  stored_keywords s ≠ [] →
  otruthy (NTFY_TOPIC env) = true →
  LAST_CHECK_KEY (HN_KV s') = Some (cycle_now Date_now s).
Proof.
  intros Hrun Hkws Htopic. rewrite handleScheduled_eq in Hrun by done.
  case_decide; [discriminate|]. cbn zeta in Hrun.
  destruct (matches (scan_end fetch ai_run Date_now s)).
  - by injection Hrun as <-.
  - unfold bind in Hrun. destruct (call_fetch fetch _ _) as [[resp|e] sn]; [|discriminate].
    by injection Hrun as <-.
Qed.

(** C1.  When [handleScheduled] reaches its end, with keywords stored and the
    topic configured, the value under the last-check key is [now], the time
    the cycle read at its start, whatever the batch and whichever searches
    failed. *)
Theorem completed_cycle_sets_watermark env s s' :
  handleScheduled fetch ai_run Date_now env s = (Ok tt, s') →
  stored_keywords s ≠ [] →
  otruthy (NTFY_TOPIC env) = true →
  LAST_CHECK_KEY (HN_KV s') = Some (cycle_now Date_now s).
Proof.
  intros Hrun Hkws Htopic. rewrite handleScheduled_eq in Hrun by done.
  destruct (decide _) as [Hdate|Hdate]; [discriminate|]. cbn zeta in Hrun.
  destruct (matches (scan_end fetch ai_run Date_now s)) as [|first rest].
  - injection Hrun as <-. reflexivity.
  - unfold bind in Hrun.
    destruct (call_fetch fetch _ _) as [[resp|e] posted]; [|discriminate].
    injection Hrun as <-. reflexivity.
Qed.

(** *** Search failures *)

Lemma scan_start_frame s :
  let s0 := scan_start Date_now s in
  HN_KV s0 = HN_KV s ∧ requests s0 = requests s ∧ seenIds s0 = ∅ ∧ matches s0 = [].
Proof.
  unfold scan_start, call_Date_now.
  pose proof (getLastCheckTimestamp_frame s) as Hfr. cbn zeta in Hfr.
  set (s1 := snd (getLastCheckTimestamp Date_now s)) in *. clearbody s1.
  destruct (Date_now (world s1)) as [ms w]. cbn. rewrite Hfr. by cbn.
Qed.

Lemma scan_start_ok s : batch_ok (scan_start Date_now s).
Proof.
  destruct (scan_start_frame s) as (_ & _ & _ & Hms).
  split; rewrite Hms; [apply NoDup_nil_2|]. intros m Hm. by apply elem_of_nil in Hm.
Qed.

Lemma search_queries_app r1 r2 :
  search_queries (r1 ++ r2) = search_queries r1 ++ search_queries r2.
Proof. unfold search_queries. apply omap_app. Qed.

Lemma search_queries_requests lastCheck kws :
  search_queries (map (search_request lastCheck) kws) = map keyword kws.
Proof. induction kws as [|kc rest IH]; [done|]. cbn. by rewrite <- IH. Qed.

Lemma handleScheduled_final env s :
  cycle_scans Date_now env s →
  let final := snd (handleScheduled fetch ai_run Date_now env s) in
  let se := scan_end fetch ai_run Date_now s in
  matches final = matches se
  ∧ search_queries (requests final) = search_queries (requests se)
  ∧ (matches se = [] → requests final = requests se)
  ∧ (matches se ≠ [] →
     requests final = requests se ++ [notification_request env (matches se)]).
Proof.
  intros (Hkws & Htopic & Hdate). rewrite handleScheduled_eq by done.
  rewrite decide_False by lia. cbn zeta.
  destruct (matches (scan_end fetch ai_run Date_now s)) as [|first rest] eqn:Hms.
  { cbn. by rewrite Hms. }
  unfold bind. rewrite call_fetch_eq.
  destruct (fst (fetch _ _)) as [resp|e]; cbn; rewrite Hms;
    (split_and!; [done| |done|done]);
    by rewrite search_queries_app, app_nil_r.
Qed.

Lemma scanned_ok lastCheck kws i s0 :
  batch_ok s0 → batch_ok (scanned fetch ai_run lastCheck kws i s0).
Proof. intros Hok. by destruct (scanKeywords_spec lastCheck (take i kws) s0 Hok). Qed.

Lemma scanned_prefix lastCheck kws i s0 :
  batch_ok s0 →
  matches (scanned fetch ai_run lastCheck kws i s0)
  `prefix_of` matches (snd (scanKeywords fetch ai_run kws lastCheck s0)).
Proof.
  intros Hok. rewrite (scanned_rest lastCheck kws i s0).
  by destruct (scanKeywords_spec lastCheck (drop i kws) _ (scanned_ok lastCheck kws i s0 Hok))
    as (_ & _ & ? & _).
Qed.

Lemma scanned_S_hits lastCheck kws j kc found s0 :
  kws !! j = Some kc →
  search_outcome fetch ai_run lastCheck kws j kc s0 = Ok found →
  scanned fetch ai_run lastCheck kws (S j) s0
  = scanned_hits fetch ai_run lastCheck kws j kc found s0.
Proof.
  intros Hj Hout. rewrite (scanned_S _ _ _ _ _ Hj), scanKeyword_eq. cbn [snd].
  unfold scanned_hits, search_outcome in *.
  destruct (searchHN fetch (keyword kc) lastCheck _) as [[found'|e] s1]; cbn in *; [|done].
  by injection Hout as ->.
Qed.

Lemma seen_origin lastCheck kws i id s0 :
  batch_ok s0 → i ≤ length kws →
  id ∈ seenIds (scanned fetch ai_run lastCheck kws i s0) →
  id ∈ seenIds s0
  ∨ ∃ j kc found, j < i ∧ kws !! j = Some kc
      ∧ search_outcome fetch ai_run lastCheck kws j kc s0 = Ok found
      ∧ id ∈ map objectID found.
Proof.
  intros Hok. induction i as [|i IH]; intros Hi Hid.
  { rewrite scanned_0 in Hid. by left. }
  destruct (lookup_lt_is_Some_2 kws i) as [kc Hkc]; [lia|].
  rewrite (scanned_S _ _ _ _ _ Hkc) in Hid.
  destruct (scanKeyword_spec lastCheck kc _ (scanned_ok lastCheck kws i s0 Hok))
    as (_ & _ & _ & _ & _ & _ & _ & Hseen).
  destruct (Hseen id Hid) as [Hbefore|(found & Hout & Hin)].
  - destruct IH as [?|(j & kc' & found & Hj & ?)]; [lia|done|by left|].
    right. exists j, kc', found. split; [lia|done].
  - right. exists i, kc, found. split_and!; [lia|done|done|done].
Qed.

Lemma scanHits_no_context kc found s h :
  otruthy (context kc) = false → batch_ok s →
  h ∈ found → objectID h ∉ seenIds s →
  ∃ m, m ∈ matches (snd (for_of found (scanHit ai_run kc) s))
       ∧ mkeyword m = keyword kc ∧ objectID (hit m) = objectID h.
Proof.
  intros Hctx. revert s. induction found as [|x rest IH]; intros s Hok Hin Hfresh.
  { by apply elem_of_nil in Hin. }
  assert (snd (for_of (x :: rest) (scanHit ai_run kc) s)
          = snd (for_of rest (scanHit ai_run kc) (snd (scanHit ai_run kc x s)))) as ->.
  { cbn [for_of]. unfold bind. pose proof (scanHit_total kc x s) as Htot.
    by destruct (scanHit ai_run kc x s) as [[[]|e] s1]. }
  destruct (scanHit_spec kc x s Hok) as (Hok1 & Hseen1 & _).
  destruct (scanHits_spec kc rest _ Hok1) as (_ & _ & Hpre & _).
  destruct (decide (objectID x = objectID h)) as [Heq|Hne].
  - exists (mkMatchedHit (keyword kc) x). split_and!; [|done|done].
    eapply elem_of_prefix; [|exact Hpre].
    rewrite scanHit_fresh by (by rewrite Heq). rewrite Hctx. cbn.
    apply elem_of_app. right. left.
  - apply IH; [done| |].
    + apply elem_of_cons in Hin as [->|?]; done.
    + rewrite Hseen1. intros [?%elem_of_singleton|?]%elem_of_union; [by destruct Hne|done].
Qed.

(** C2.  In the batch a poll cycle accumulates, no two matches have the same
    hit id, and every match carries the keyword of the first entry of the
    keyword list whose search returned its hit id: that search returned the
    hit, as the first hit with that id of its list, and no search of an
    earlier entry returned a hit with that id. *)
Theorem batch_dedupes_first_keyword_wins env s :
  cycle_scans Date_now env s →
  let kws := stored_keywords s in
  let lastCheck := cycle_lastCheck Date_now s in
  let s0 := scan_start Date_now s in
  let batch := matches (snd (handleScheduled fetch ai_run Date_now env s)) in
  NoDup (map (fun m => objectID (hit m)) batch)
  ∧ ∀ m, m ∈ batch →
      ∃ i kc found,
        kws !! i = Some kc ∧ mkeyword m = keyword kc
        ∧ search_outcome fetch ai_run lastCheck kws i kc s0 = Ok found
        ∧ first_with_id (hit m) found
        ∧ ∀ j kc' found', j < i → kws !! j = Some kc' →
            search_outcome fetch ai_run lastCheck kws j kc' s0 = Ok found' →
            objectID (hit m) ∉ map objectID found'.
Proof.
  intros Hcycle kws lastCheck s0 batch. subst batch.
  destruct (handleScheduled_final env s Hcycle) as (-> & _).
  destruct (scan_start_frame s) as (_ & _ & _ & Hempty).
  destruct (scanKeywords_spec lastCheck kws s0 (scan_start_ok s))
    as ([Hnd _] & _ & _ & _ & _ & Hm).
  split; [done|]. intros m [Hin|[_ Hex]]%Hm; [|done].
  fold s0 in Hempty. rewrite Hempty in Hin. by apply elem_of_nil in Hin.
Qed.

(** C6, amended.  In a poll cycle in which the search of some keyword throws
    and the search of another returns, the loop over the keywords does not
    throw; what the hits of a successful search put on the batch is in the
    final batch (for a keyword without context, a match for each hit whose
    id no earlier search returned); the searches sent are those of all the
    keywords in list order; the watermark is [now] whenever the cycle reaches
    its end; and it reaches its end when the batch is empty or the POST of
    the notification returns. *)
Theorem search_failure_is_isolated env s :
  cycle_scans Date_now env s →
  some_search_fails_some_succeeds fetch ai_run Date_now s →
  fst (scanKeywords fetch ai_run (stored_keywords s) (cycle_lastCheck Date_now s)
         (scan_start Date_now s)) = Ok tt
  ∧ failure_isolated_in_scan fetch ai_run Date_now env s
  ∧ (∀ s', handleScheduled fetch ai_run Date_now env s = (Ok tt, s') →
       LAST_CHECK_KEY (HN_KV s') = Some (cycle_now Date_now s))
  ∧ (matches (scan_end fetch ai_run Date_now s) = []
     ∨ (∃ resp,
          fst (fetch (notification_request env (matches (scan_end fetch ai_run Date_now s)))
                 (world (scan_end fetch ai_run Date_now s))) = Ok resp) →
     fst (handleScheduled fetch ai_run Date_now env s) = Ok tt).
Proof.
  intros Hcycle _. pose proof Hcycle as (Hkws & Htopic & Hdate).
  destruct (handleScheduled_final env s Hcycle) as (Hms & Hqs & _).
  pose proof (scan_start_ok s) as Hok0.
  destruct (scan_start_frame s) as (_ & Hrq0 & Hseen0 & _).
  split_and!.
  - by rewrite scanKeywords_eq.
  - unfold failure_isolated_in_scan. cbn zeta. rewrite Hms, Hqs. unfold scan_end.
    split_and!.
    + intros j kc found Hj Hout. rewrite <- (scanned_S_hits _ _ _ _ _ _ Hj Hout).
      by apply scanned_prefix.
    + intros j kc found h Hj Hout Hctx Hin Hearlier.
      assert (objectID h ∉ seenIds (snd (searchHN fetch (keyword kc)
                (cycle_lastCheck Date_now s)
                (scanned fetch ai_run (cycle_lastCheck Date_now s) (stored_keywords s) j
                   (scan_start Date_now s))))) as Hfresh.
      { destruct (searchHN_frame (keyword kc) (cycle_lastCheck Date_now s)
                    (scanned fetch ai_run (cycle_lastCheck Date_now s) (stored_keywords s) j
                       (scan_start Date_now s))) as (_ & _ & -> & _).
        intros Hid. apply seen_origin in Hid as [Hid|(j' & kc' & found' & Hj' & Hkc' & Hout' & Hin')];
          [| |done|].
        - rewrite Hseen0 in Hid. by apply not_elem_of_empty in Hid.
        - by apply (Hearlier j' kc' found').
        - apply lookup_lt_Some in Hj. lia. }
      assert (batch_ok (snd (searchHN fetch (keyword kc) (cycle_lastCheck Date_now s)
                (scanned fetch ai_run (cycle_lastCheck Date_now s) (stored_keywords s) j
                   (scan_start Date_now s))))) as Hok1.
      { pose proof (scanned_ok (cycle_lastCheck Date_now s) (stored_keywords s) j _ Hok0)
          as [Hnd Hs].
        destruct (searchHN_frame (keyword kc) (cycle_lastCheck Date_now s)
                    (scanned fetch ai_run (cycle_lastCheck Date_now s) (stored_keywords s) j
                       (scan_start Date_now s))) as (_ & _ & Hs1 & Hm1 & _).
        split; [by rewrite Hm1|]. intros m. rewrite Hm1, Hs1. apply Hs. }
      destruct (scanHits_no_context kc found _ h Hctx Hok1 Hin Hfresh) as (m & Hm & Hk & Hid).
      exists m. split_and!; [|done|done].
      eapply elem_of_prefix; [|by apply (scanned_prefix _ _ (S j))].
      by rewrite (scanned_S_hits _ _ _ _ _ _ Hj Hout).
    + destruct (scanKeywords_spec (cycle_lastCheck Date_now s) (stored_keywords s) _ Hok0)
        as (_ & _ & _ & _ & -> & _).
      by rewrite search_queries_app, search_queries_requests, Hrq0.
  - intros s' Hrun. by apply (handleScheduled_completed env s s').
  - intros Hsent. rewrite handleScheduled_eq by done.
    rewrite decide_False by lia. cbn zeta.
    destruct (matches (scan_end fetch ai_run Date_now s)) as [|first rest] eqn:Hbatch; [done|].
    destruct Hsent as [?|[resp Hresp]]; [done|].
    unfold bind. rewrite call_fetch_eq, Hresp. done.
Qed.

(** *** The batch notification *)














End Properties.

(** ** Runs on the concrete world *)

(** The cycle over "rust" and "zig" with ntfy.sh up ends and leaves the time
    it read, in seconds, under the last-check key. *)
Lemma completed_cycle_sets_watermark_witness :
  LAST_CHECK_KEY
    (HN_KV (snd (handleScheduled demo_fetch demo_ai_run demo_Date_now demo_env
                   (demo_cycle false))))
  = Some 1700000000%Z.
Proof.
  apply (completed_cycle_sets_watermark demo_fetch demo_ai_run demo_Date_now demo_env
           (demo_cycle false)).
  - vm_compute. reflexivity.
  - vm_compute. discriminate.
  - reflexivity.
Defined.

(** On the legacy array ["zig", "rust", "go"], adding " Rust " twice keeps
    "rust" in second place, with the trimmed second context. *)
Lemma addKeyword_twice_upserts_witness :
  stored_keywords
    (add_twice toLowerCase_ascii (lit " Rust ") (Some (lit "old"))
       (Some (lit " systems language "))
       (demo_state false (Some (JsonStrings [lit "zig"; lit "rust"; lit "go"]))))
  = [mkKeywordConfig (lit "zig") None;
     mkKeywordConfig (lit "rust") (Some (lit "systems language"));
     mkKeywordConfig (lit "go") None].
Proof.
  assert (toLowerCase_ascii (trim (lit " Rust ")) ≠ []) as Hn
    by (vm_compute; discriminate).
  assert (length (filter (keyword_is (toLowerCase_ascii (trim (lit " Rust "))))
                    (stored_keywords
                       (demo_state false
                          (Some (JsonStrings [lit "zig"; lit "rust"; lit "go"])))))
          ≤ 1) as Hle by (vm_compute; lia).
  destruct (addKeyword_twice_upserts toLowerCase_ascii (lit " Rust ") (Some (lit "old"))
              (Some (lit " systems language "))
              (demo_state false (Some (JsonStrings [lit "zig"; lit "rust"; lit "go"])))
              Hn Hle) as (_ & _ & _ & Hpos).
  vm_compute in Hpos. vm_compute. exact Hpos.
Defined.

(** The upsert sentence as written fails on a stored array that holds "a"
    twice (two entries with keyword "a" remain), and on the empty store with
    the context " x " (the entry carries "x"). *)
Lemma addKeyword_twice_counterexample :
  ¬ add_twice_as_stated toLowerCase_ascii (lit "a") None (Some (lit " x "))
      (demo_state false
         (Some (JsonConfigs [mkKeywordConfig (lit "a") None;
                             mkKeywordConfig (lit "a") None])))
  ∧ ¬ add_twice_as_stated toLowerCase_ascii (lit "a") None (Some (lit " x "))
        (demo_state false None).
Proof.
  assert (toLowerCase_ascii (trim (lit "a")) ≠ []) as Hn by (vm_compute; discriminate).
  split; intros Hstated; destruct (Hstated Hn) as [Hlen Hctx].
  - vm_compute in Hlen. discriminate.
  - specialize (Hctx (mkKeywordConfig (lit "a") (Some (lit "x")))).
    assert (Some (lit "x") = Some (lit " x ")) as Heq; [|vm_compute in Heq; discriminate].
    apply Hctx; [|reflexivity]. vm_compute. left.
Qed.


(** The model throws: the hit is on the batch all the same. *)
Lemma scorer_failure_fails_open_witness :
  matches (snd (scanHit demo_ai_down zig_lang (demo_hit "1" "Zig 1.0") (demo_state false None)))
  = [mkMatchedHit (lit "zig") (demo_hit "1" "Zig 1.0")].
Proof.
  refine (proj1 (proj2 (scorer_failure_fails_open demo_ai_down zig_lang
            (demo_hit "1" "Zig 1.0") (demo_state false None)
            (lit "the Zig programming language")
            (Error (lit "3040: capacity temporarily exceeded"))
            (snd (checkRelevance demo_ai_down (lit "the Zig programming language")
                    (demo_hit "1" "Zig 1.0")
                    (snd (seenIds_add (objectID (demo_hit "1" "Zig 1.0"))
                            (demo_state false None)))))
            _ _ _ _))).
  - apply not_elem_of_empty.
  - reflexivity.
  - vm_compute. discriminate.
  - reflexivity.
Defined.

(** The search for "rust" answers 503, the one for "zig" returns, ntfy.sh is
    up: the cycle ends, with the matches of "zig" in its batch. *)
Lemma search_failure_is_isolated_witness :
  fst (handleScheduled demo_fetch demo_ai_run demo_Date_now demo_env (demo_cycle false))
  = Ok tt
  ∧ failure_isolated_in_scan demo_fetch demo_ai_run demo_Date_now demo_env
      (demo_cycle false).
Proof.
  assert (cycle_scans demo_Date_now demo_env (demo_cycle false)) as Hcycle.
  { split_and!; [vm_compute; discriminate|reflexivity|vm_compute; discriminate]. }
  assert (some_search_fails_some_succeeds demo_fetch demo_ai_run demo_Date_now
            (demo_cycle false)) as Hsome.
  { split.
    - exists 0, rust, (Error (lit "HN API error: 503")). split; reflexivity.
    - exists 1, zig, [demo_hit "1" "Zig 1.0"; demo_hit "2" "Show HN"].
      split; reflexivity. }
  destruct (search_failure_is_isolated demo_fetch demo_ai_run demo_Date_now demo_env
              (demo_cycle false) Hcycle Hsome) as (_ & Hscan & _ & Hend).
  split; [|exact Hscan]. apply Hend. right.
  exists (mkResponse true 200 (Throw (Error (lit "Unexpected end of JSON input")))).
  reflexivity.
Defined.

(** The same cycle with ntfy.sh down: the POST throws, [handleScheduled]
    throws with it, and nothing is written under the last-check key. *)
Lemma search_failure_counterexample :
  ¬ failure_isolated_as_stated demo_fetch demo_ai_run demo_Date_now demo_env
      (demo_cycle true).
Proof.
  intros Hstated. destruct Hstated as (Hok & _ & Hmark).
  - split_and!; [vm_compute; discriminate|reflexivity|vm_compute; discriminate].
  - split.
    + exists 0, rust, (Error (lit "HN API error: 503")). split; reflexivity.
    + exists 1, zig, [demo_hit "1" "Zig 1.0"; demo_hit "2" "Show HN"].
      split; reflexivity.
  - vm_compute in Hmark. discriminate.
Qed.


(** Adding " Go " to, or removing "RUST" from, the keywords "rust" and
    "zig": the invariant holds of what is stored afterwards. *)
Lemma add_remove_keep_keywords_distinct_witness :
  uniqueness_invariant toLowerCase_ascii
    (stored_keywords
       (snd (addKeyword toLowerCase_ascii (lit " Go ") (Some (lit "golang"))
               (demo_cycle false))))
  ∧ uniqueness_invariant toLowerCase_ascii
      (stored_keywords
         (snd (removeKeyword toLowerCase_ascii (lit "RUST") (demo_cycle false)))).
Proof.
  assert (Forall (normalized_entry toLowerCase_ascii) (stored_keywords (demo_cycle false)))
    as Hnorm.
  { repeat constructor; vm_compute; discriminate. }
  assert (NoDup (map keyword (stored_keywords (demo_cycle false)))) as Hnd.
  { apply (bool_decide_unpack _). vm_compute. exact I. }
  destruct (add_remove_keep_keywords_distinct toLowerCase_ascii (lit " Go ")
              (Some (lit "golang")) (demo_cycle false) Hnorm Hnd)
    as [(_ & _ & Hadd) _].
  destruct (add_remove_keep_keywords_distinct toLowerCase_ascii (lit "RUST")
              None (demo_cycle false) Hnorm Hnd) as [_ (_ & _ & Hremove & _)].
  assert (toLowerCase_ascii (trim (toLowerCase_ascii (trim (lit " Go "))))
          = toLowerCase_ascii (trim (lit " Go "))) as Hstable by reflexivity.
  destruct (Hadd Hstable) as [Hadded _].
  split; [exact Hadded|exact Hremove].
Defined.

(** A keyword of three spaces is rejected and the state is as before. *)
Lemma addKeyword_empty_keyword_rejected_witness :
  addKeyword toLowerCase_ascii (lit "   ") (Some (lit "ignored")) (demo_cycle false)
  = (Throw (Error (lit "Keyword cannot be empty")), demo_cycle false).
Proof.
  apply (addKeyword_empty_keyword_rejected toLowerCase_ascii (lit "   ")
           (Some (lit "ignored")) (demo_cycle false)).
  reflexivity.
Defined.

(** "zig" and "go" get the same two hits: the ids of the batch are distinct. *)
Lemma batch_dedupes_first_keyword_wins_witness :
  NoDup (map (fun m => objectID (hit m))
           (matches (snd (handleScheduled demo_fetch demo_ai_run demo_Date_now demo_env
                            (demo_state false (Some (JsonConfigs [zig; go]))))))).
Proof.
  refine (proj1 (batch_dedupes_first_keyword_wins demo_fetch demo_ai_run demo_Date_now
                   demo_env (demo_state false (Some (JsonConfigs [zig; go]))) _)).
  split_and!; [vm_compute; discriminate|reflexivity|vm_compute; discriminate].
Defined.

(** The legacy array ["rust", "zig"] read as two entries without context. *)
Lemma getKeywords_legacy_absent_read_only_witness :
  getKeywords (with_keywords (Some (JsonStrings [lit "rust"; lit "zig"]))
                 (demo_state false None))
  = (Ok [rust; zig],
     with_keywords (Some (JsonStrings [lit "rust"; lit "zig"])) (demo_state false None)).
Proof.
  exact (proj1 (getKeywords_legacy_absent_read_only (demo_state false None)
                  [lit "rust"; lit "zig"])).
Defined.

(** Both "zig" and "go" get the hits 1 and 2: the batch has them once, under
    "zig". *)
Example two_keywords_same_hits :
  matches (snd (scanKeywords demo_fetch demo_ai_run [zig; go] 1699999100
                  (snd (init_locals (demo_state false None)))))
  = [mkMatchedHit (lit "zig") (demo_hit "1" "Zig 1.0");
     mkMatchedHit (lit "zig") (demo_hit "2" "Show HN")].
Proof. vm_compute. reflexivity. Qed.

(** A score of 0.3 filters the hit and counts it. *)
Example cold_hit_filtered :
  let s' := snd (scanHit demo_ai_cold zig_lang (demo_hit "1" "Zig 1.0")
                   (demo_state false None)) in
  matches s' = [] ∧ filteredCount s' = 1.
Proof. vm_compute. split; reflexivity. Qed.

(** A comment of tags and white space gives a blank snippet: the score is 0
    though the model would answer 0.7, and the hit is filtered. *)
Example blank_snippet_filtered :
  let s' := snd (scanHit demo_ai_run zig_lang demo_blank_comment (demo_state false None)) in
  matches s' = [] ∧ filteredCount s' = 1.
Proof. vm_compute. split; reflexivity. Qed.

Example strip_tags_run :
  strip_tags (lit "I <i>love</i> Zig<p>a < b") = lit "I  love  Zig a < b".
Proof. vm_compute. reflexivity. Qed.

Example trim_run : trim (lit "  Rust Lang ") = lit "Rust Lang".
Proof. vm_compute. reflexivity. Qed.

Example single_match_notification :
  formatBatchNotification
    [mkMatchedHit (lit "zig")
       (mkHNHit (lit "9") None (Some (lit "Zig 1.0")) None None (lit "pg") 0
          (Some (lit "<p>Nice")))]
  = (lit "[zig] Zig 1.0", lit " Nice...").
Proof. vm_compute. reflexivity. Qed.

Example twelve_matches_notification :
  fst (formatBatchNotification demo_batch) = lit "HN Alert: 12 matches"
  ∧ take 13 (snd (formatBatchNotification demo_batch)) = lit "zig(6), go(6)"
  ∧ drop (length (snd (formatBatchNotification demo_batch)) - 14)
         (snd (formatBatchNotification demo_batch)) = lit "... and 2 more".
Proof. vm_compute. split_and!; reflexivity. Qed.

(** With no stored watermark the cycle searches from fifteen minutes before
    the time it reads. *)
Example first_run_lastCheck : cycle_lastCheck demo_Date_now (demo_cycle false) = 1699999100%Z.
Proof. reflexivity. Qed.

(** ** More properties of the worker *)

Section MoreProperties.

Context (toLowerCase : jsstring -> jsstring).
Context (decodeURIComponent : jsstring -> Result jsstring) (toISOString : Z -> jsstring).
Context {World : Type}.
Context (fetch : Request -> World -> Result Response * World).
Context (ai_run : jsstring -> AiInput -> World -> Result AiOutput * World).
Context (Date_now : World -> Z * World).

Implicit Types (s : State World) (k n : jsstring) (c : option jsstring).
Implicit Types (keywords : list KeywordConfig).

(** *** Trimming *)

Lemma trimContext_trimmed c :
  trimContext c = None ∨ ∃ txt : jsstring, trimContext c = Some txt ∧ txt ≠ [] ∧ trimmed txt.
Proof.
  destruct c as [c0|]; [|by left]. cbn.
  destruct (trim c0) as [|ch t] eqn:E; [by left|]. right.
  exists (ch :: t). split_and!; [done|done|]. rewrite <- E. apply trim_trimmed.
Qed.

(** *** More on the keyword store *)

Lemma list_find_cons_keyword n e keywords :
  list_find (keyword_is n) (e :: keywords)
  = if decide (keyword_is n e) then Some (0, e)
    else prod_map S id <$> list_find (keyword_is n) keywords.
Proof. reflexivity. Qed.

Lemma upsert_find n c keywords :
  ∃ i, list_find (keyword_is n) (upsert n c keywords) = Some (i, mkKeywordConfig n c).
Proof.
  induction keywords as [|e l [i IH]].
  - exists 0. rewrite upsert_nil, list_find_cons_keyword. by rewrite decide_True.
  - rewrite upsert_cons. case_decide as He.
    + exists 0. rewrite list_find_cons_keyword, decide_True by done.
      unfold set_context. by rewrite He.
    + exists (S i). rewrite list_find_cons_keyword, decide_False by done.
      by rewrite IH.
Qed.

Lemma upsert_others n c keywords :
  filter (fun e => ¬ keyword_is n e) (upsert n c keywords)
  = filter (fun e => ¬ keyword_is n e) keywords.
Proof.
  induction keywords as [|e l IH].
  - rewrite upsert_nil. rewrite filter_cons, decide_False; [done|].
    intros Hne. by apply Hne.
  - rewrite upsert_cons. case_decide as He.
    + rewrite !filter_cons, !decide_False; [done| |]; intros Hne; by apply Hne.
    + by rewrite !filter_cons, !decide_True, IH by done.
Qed.

Lemma upsert_length n c keywords :
  length (upsert n c keywords)
  = if decide (n ∈ map keyword keywords) then length keywords else S (length keywords).
Proof.
  case_decide as Hin.
  - rewrite <- (length_map keyword), upsert_keywords_present by done.
    by rewrite length_map.
  - rewrite upsert_keywords_fresh by done. rewrite length_app. cbn. lia.
Qed.

Lemma filter_absent n keywords :
  n ∉ map keyword keywords →
  filter (fun e => ¬ keyword_is n e) keywords = keywords.
Proof.
  induction keywords as [|e l IH]; [done|]. cbn [map]. intros Hout.
  rewrite filter_cons, decide_True.
  - rewrite IH; [done|]. intros ?. apply Hout. by right.
  - intros He. apply Hout. rewrite <- He. left.
Qed.

Lemma filter_removed n keywords :
  Forall (fun e => keyword e ≠ n) (filter (fun e => ¬ keyword_is n e) keywords).
Proof.
  apply Forall_forall. by intros e [He _]%list_elem_of_filter.
Qed.

Lemma filter_filter_keyword n keywords :
  filter (fun e => ¬ keyword_is n e) (filter (fun e => ¬ keyword_is n e) keywords)
  = filter (fun e => ¬ keyword_is n e) keywords.
Proof.
  induction keywords as [|e l IH]; [done|]. rewrite filter_cons. case_decide; [|done].
  by rewrite filter_cons, decide_True, IH by done.
Qed.

(** X1.  Removing a keyword that is not stored returns the stored sequence
    as it is, and that sequence is what is stored afterwards. *)
Theorem removeKeyword_absent_noop k s :
  toLowerCase (trim k) ∉ map keyword (stored_keywords s) →
  fst (removeKeyword toLowerCase k s) = Ok (stored_keywords s)
  ∧ stored_keywords (snd (removeKeyword toLowerCase k s)) = stored_keywords s.
Proof.
  intros Hout. rewrite removeKeyword_eq. cbn [fst snd]. unfold with_keywords.
  rewrite stored_keywords_put. by rewrite filter_absent.
Qed.

(** X2.  After [removeKeyword] no stored entry has the normalized keyword,
    the entries of the other keywords are the ones stored before, in their
    order, and removing the same keyword again returns the same sequence and
    leaves the state as it is. *)
Theorem removeKeyword_removes_idempotent k s :
  let n := toLowerCase (trim k) in
  let s1 := snd (removeKeyword toLowerCase k s) in
  Forall (fun e => keyword e ≠ n) (stored_keywords s1)
  ∧ stored_keywords s1 = filter (fun e => keyword e ≠ n) (stored_keywords s)
  ∧ removeKeyword toLowerCase k s1 = (Ok (stored_keywords s1), s1).
Proof.
  intros n s1. subst s1. rewrite (removeKeyword_eq toLowerCase k s). cbn [snd].
  rewrite removeKeyword_eq. unfold with_keywords.
  cbn [HN_KV set_HN_KV LAST_CHECK_KEY]. rewrite !stored_keywords_put. fold n.
  split_and!; [apply filter_removed|done|].
  rewrite filter_filter_keyword. reflexivity.
Qed.

(** X3.  Adding a keyword that is not stored and removing it again gives
    back the stored sequence. *)
Theorem add_then_remove_round_trip k c s :
  let n := toLowerCase (trim k) in
  n ≠ [] → n ∉ map keyword (stored_keywords s) →
  stored_keywords
    (snd (removeKeyword toLowerCase k (snd (addKeyword toLowerCase k c s))))
  = stored_keywords s.
Proof.
  intros n Hn Hout. rewrite (addKeyword_eq toLowerCase k c s) by done. cbn [snd].
  rewrite removeKeyword_eq. unfold with_keywords.
  cbn [snd HN_KV set_HN_KV LAST_CHECK_KEY]. rewrite !stored_keywords_put. fold n.
  rewrite upsert_keywords_fresh by done.
  rewrite filter_app, filter_absent by done.
  rewrite filter_cons, decide_False; [by rewrite filter_nil, app_nil_r|].
  intros Hne. by apply Hne.
Qed.

(** X4.  After an [addKeyword] with a keyword that is not empty, the call
    has returned the stored sequence, and the first stored entry with the
    normalized keyword carries the trimmed context of the call: it is absent,
    or a string that is not empty and has no white space at either end. *)
Theorem addKeyword_then_lookup k c s :
  let n := toLowerCase (trim k) in
  n ≠ [] →
  let s1 := snd (addKeyword toLowerCase k c s) in
  fst (addKeyword toLowerCase k c s) = Ok (stored_keywords s1)
  ∧ (∃ i, list_find (keyword_is n) (stored_keywords s1)
          = Some (i, mkKeywordConfig n (trimContext c)))
  ∧ (trimContext c = None
     ∨ ∃ txt : jsstring, trimContext c = Some txt ∧ txt ≠ [] ∧ trimmed txt).
Proof.
  intros n Hn s1. subst s1. rewrite (addKeyword_eq toLowerCase k c s) by done.
  cbn [fst snd]. unfold with_keywords. rewrite stored_keywords_put. fold n.
  split_and!; [done|apply upsert_find|apply trimContext_trimmed].
Qed.

(** X5.  An [addKeyword] with a keyword that is not empty leaves the entries
    of the other keywords, and their order, as they were; the stored
    sequence grows by one entry when the normalized keyword was not stored
    and keeps its length when it was. *)
Theorem addKeyword_keeps_others k c s :
  let n := toLowerCase (trim k) in
  n ≠ [] →
  let s1 := snd (addKeyword toLowerCase k c s) in
  filter (fun e => keyword e ≠ n) (stored_keywords s1)
  = filter (fun e => keyword e ≠ n) (stored_keywords s)
  ∧ length (stored_keywords s1)
    = if decide (n ∈ map keyword (stored_keywords s)) then length (stored_keywords s)
      else S (length (stored_keywords s)).
Proof.
  intros n Hn s1. subst s1. rewrite (addKeyword_eq toLowerCase k c s) by done.
  cbn [snd]. unfold with_keywords. rewrite stored_keywords_put. fold n.
  split; [apply upsert_others|apply upsert_length].
Qed.

(** X6.  [addKeyword] and [removeKeyword], when they return, have changed
    nothing but the text under the keywords key: it is the array they
    return, in the current format, also when the text before was an array
    of strings; the last-check key, the world and the log of requests are
    as before. *)
Theorem add_remove_write_keywords_only k c s returned s1 :
  addKeyword toLowerCase k c s = (Ok returned, s1)
  ∨ removeKeyword toLowerCase k s = (Ok returned, s1) →
  s1 = mkState (mkKV (Some (JsonConfigs returned)) (LAST_CHECK_KEY (HN_KV s)))
         (world s) (requests s) (seenIds s) (matches s) (filteredCount s).
Proof.
  intros [Hadd|Hremove].
  - destruct (decide (toLowerCase (trim k) = [])) as [Hn|Hn].
    + rewrite addKeyword_empty_eq in Hadd by done. discriminate.
    + rewrite addKeyword_eq in Hadd by done. by injection Hadd as <- <-.
  - rewrite removeKeyword_eq in Hremove. by injection Hremove as <- <-.
Qed.

(** *** Stripping tags *)

(** X7.  In a text with its tags stripped no [<] is followed by a [>], so
    stripping it again changes nothing; a text in which no [<] is followed
    by a [>] is left as it is; and stripping never makes a text longer. *)
Theorem strip_tags_leaves_no_tag (text : jsstring) :
  tag_free (strip_tags text)
  ∧ strip_tags (strip_tags text) = strip_tags text
  ∧ (tag_free text → strip_tags text = text)
  ∧ length (strip_tags text) ≤ length text.
Proof.
  unfold strip_tags. split_and!.
  - apply strip_scan_tag_free.
  - apply tag_free_unchanged, strip_scan_tag_free.
  - apply tag_free_unchanged.
  - apply strip_scan_length.
Qed.

(** *** The summary of a batch *)

Lemma Map_set_sum counts kw :
  sum_counts (Map_set counts kw (default 0 (Map_get counts kw) + 1))
  = S (sum_counts counts).
Proof.
  induction counts as [|[kw' v'] rest IH]; [done|]. cbn [Map_set Map_get].
  case_decide; cbn [default from_option id sum_counts foldr snd].
  - fold (sum_counts rest). lia.
  - fold (sum_counts rest) (sum_counts (Map_set rest kw (default 0 (Map_get rest kw) + 1))).
    rewrite IH. lia.
Qed.

Lemma Map_set_keys counts kw v :
  map fst (Map_set counts kw v)
  = if decide (kw ∈ map fst counts) then map fst counts else map fst counts ++ [kw].
Proof.
  induction counts as [|[kw' v'] rest IH]; [done|]. cbn [Map_set map fst].
  destruct (decide (kw' = kw)) as [->|Hne].
  - by rewrite decide_True by left.
  - cbn [map fst]. rewrite IH. case_decide.
    + by rewrite decide_True by (by right).
    + by rewrite decide_False by (by intros [?|?]%elem_of_cons).
Qed.

Lemma Map_set_positive counts kw :
  Forall (fun e => 1 ≤ snd e) counts →
  Forall (fun e => 1 ≤ snd e) (Map_set counts kw (default 0 (Map_get counts kw) + 1)).
Proof.
  induction counts as [|[kw' v'] rest IH]; intros Hpos.
  { repeat constructor. }
  apply Forall_cons in Hpos as [Hv Hrest]. cbn [Map_set Map_get].
  case_decide; constructor; cbn; try done; [lia|by apply IH].
Qed.

Lemma keywordCounts_invariant (batch : list MatchedHit) (counts : list (jsstring * nat)) :
  NoDup (map fst counts) → Forall (fun e => 1 ≤ snd e) counts →
  let counts' :=
    fold_left
      (fun counts m =>
         Map_set counts (mkeyword m) (default 0 (Map_get counts (mkeyword m)) + 1))
      batch counts in
  NoDup (map fst counts')
  ∧ Forall (fun e => 1 ≤ snd e) counts'
  ∧ sum_counts counts' = sum_counts counts + length batch
  ∧ ∀ kw, kw ∈ map fst counts' ↔ kw ∈ map fst counts ∨ kw ∈ map mkeyword batch.
Proof.
  revert counts. induction batch as [|m batch IH]; intros counts Hnd Hpos; cbn [fold_left].
  { split_and!; [done|done|cbn; lia|]. intros kw. split; [by left|].
    intros [?|?%elem_of_nil]; done. }
  destruct (IH (Map_set counts (mkeyword m) (default 0 (Map_get counts (mkeyword m)) + 1)))
    as (Hnd' & Hpos' & Hsum & Hkeys).
  - rewrite Map_set_keys. case_decide as Hin; [done|].
    apply NoDup_app. split_and!; [done| |apply NoDup_singleton].
    by intros kw Hkw ->%list_elem_of_singleton.
  - by apply Map_set_positive.
  - split_and!; [done|done|rewrite Hsum, Map_set_sum; cbn [length]; lia|].
    intros kw. rewrite Hkeys, Map_set_keys. cbn [map]. rewrite elem_of_cons.
    case_decide as Hin.
    + split.
      * intros [?|?]; [by left|right; by right].
      * intros [?|[-> | ?]]; [by left|by left|by right].
    + rewrite elem_of_app, list_elem_of_singleton. split.
      * intros [[? | ->]|?]; [by left|right; by left|right; by right].
      * intros [?|[-> | ?]]; [left; by left|left; by right|by right].
Qed.

(** X8.  The summary of a batch of two matches or more lists each keyword of
    the batch once, with a count of at least one, and the counts add up to
    the number of matches; its parts, joined, are the first line of the
    body. *)
Theorem summary_counts_every_match (m1 m2 : MatchedHit) (rest : list MatchedHit) :
  let batch := m1 :: m2 :: rest in
  let counts := keywordCounts_of batch in
  NoDup (map fst counts)
  ∧ (∀ kw, kw ∈ map fst counts ↔ kw ∈ map mkeyword batch)
  ∧ Forall (fun e => 1 ≤ snd e) counts
  ∧ sum_counts counts = length batch
  ∧ ∃ lines,
      snd (formatBatchNotification batch)
      = join [10%N]
          (join (lit ", ")
             (map (fun e => fst e ++ lit "(" ++ Number_toString (Z.of_nat (snd e)) ++ lit ")")
                  counts)
           :: lines).
Proof.
  intros batch counts.
  destruct (keywordCounts_invariant batch [] (NoDup_nil_2) (Forall_nil_2 _))
    as (Hnd & Hpos & Hsum & Hkeys).
  split_and!; [done| |done|done|].
  - intros kw. unfold counts, keywordCounts_of. rewrite (Hkeys kw).
    split; [intros [?%elem_of_nil|?]; done|by right].
  - subst counts. unfold keywordCounts_of, formatBatchNotification. fold batch.
    cbn [snd]. destruct (decide (10 < length batch)); eexists; reflexivity.
Qed.

(** *** The watermark *)

(** *** The outcomes of a poll cycle *)

Lemma stored_keywords_ext s s' :
  KEYWORDS_KEY (HN_KV s') = KEYWORDS_KEY (HN_KV s) → stored_keywords s' = stored_keywords s.
Proof.
  intros Heq. unfold stored_keywords, getKeywords, bind, kv_get. cbn. rewrite Heq.
  by destruct (KEYWORDS_KEY (HN_KV s)) as [[[|k0 l]|l]|].
Qed.

Lemma clock_read_frame s :
  let s2 := snd (call_Date_now Date_now (snd (getLastCheckTimestamp Date_now s))) in
  HN_KV s2 = HN_KV s ∧ requests s2 = requests s.
Proof.
  pose proof (getLastCheckTimestamp_frame Date_now s) as Hfr. cbn zeta in Hfr.
  set (s1 := snd (getLastCheckTimestamp Date_now s)) in *. clearbody s1.
  unfold call_Date_now. destruct (Date_now (world s1)) as [ms w]. cbn.
  rewrite Hfr. by cbn.
Qed.

Lemma scan_end_frame s :
  let se := scan_end fetch ai_run Date_now s in
  HN_KV se = HN_KV s
  ∧ requests se
    = requests s ++ map (search_request (cycle_lastCheck Date_now s)) (stored_keywords s).
Proof.
  destruct (scan_start_frame Date_now s) as (Hkv & Hrq & _).
  destruct (scanKeywords_spec fetch ai_run (cycle_lastCheck Date_now s) (stored_keywords s)
              _ (scan_start_ok Date_now s)) as (_ & _ & _ & Hkv' & Hrq' & _).
  unfold scan_end. cbn zeta. by rewrite Hkv', Hrq', Hkv, Hrq.
Qed.

Lemma handleScheduled_cases env s :
  let hs := handleScheduled fetch ai_run Date_now env s in
  let se := scan_end fetch ai_run Date_now s in
  let now := cycle_now Date_now s in
  let req := notification_request env (matches se) in
  let posted :=
    mkState (HN_KV se) (snd (fetch req (world se))) (requests se ++ [req])
            (seenIds se) (matches se) (filteredCount se) in
  ((stored_keywords s = [] ∨ otruthy (NTFY_TOPIC env) = false) ∧ hs = (Ok tt, s))
  ∨ (stored_keywords s ≠ [] ∧ otruthy (NTFY_TOPIC env) = true
     ∧ (8640000000000000 < Z.abs (cycle_lastCheck Date_now s * 1000))%Z
     ∧ hs = (Throw (Error (lit "Invalid time value")),
             snd (call_Date_now Date_now (snd (getLastCheckTimestamp Date_now s)))))
  ∨ (cycle_scans Date_now env s ∧ matches se = []
     ∧ hs = (Ok tt, set_HN_KV (mkKV (KEYWORDS_KEY (HN_KV se)) (Some now)) se))
  ∨ (cycle_scans Date_now env s ∧ matches se ≠ []
     ∧ ((∃ resp, fst (fetch req (world se)) = Ok resp
         ∧ hs = (Ok tt, set_HN_KV (mkKV (KEYWORDS_KEY (HN_KV se)) (Some now)) posted))
        ∨ (∃ e, fst (fetch req (world se)) = Throw e ∧ hs = (Throw e, posted)))).
Proof.
  intros hs se now req posted. subst hs.
  destruct (decide (stored_keywords s = [])) as [Hnone|Hkws].
  { left. split; [by left|]. apply handleScheduled_skips. by left. }
  destruct (otruthy (NTFY_TOPIC env)) eqn:Htopic; cycle 1.
  { left. split; [by right|]. apply handleScheduled_skips. by right. }
  right. rewrite handleScheduled_eq by done.
  case_decide as Hdate; [by left|]. right. cbn zeta. fold se.
  assert (cycle_scans Date_now env s) as Hcycle by (split_and!; [done|done|lia]).
  destruct (matches se) as [|first rest] eqn:Hbatch; [by left|]. right.
  split_and!; [done|done|]. fold req. unfold bind. rewrite call_fetch_eq.
  destruct (fst (fetch req (world se))) as [resp|e] eqn:Hresp.
  - left. exists resp. split; [done|]. subst posted. by rewrite Hbatch.
  - right. exists e. split; [done|]. subst posted. by rewrite Hbatch.
Qed.

(** X9.  With no keyword stored, or no topic configured, a poll cycle
    returns and leaves the state as it was: no request is sent, the model
    is not called and nothing is written. *)
Theorem cycle_without_keywords_or_topic env s :
  stored_keywords s = [] ∨ otruthy (NTFY_TOPIC env) = false →
  handleScheduled fetch ai_run Date_now env s = (Ok tt, s).
Proof.
  intros Hskip. unfold handleScheduled, bind at 1. rewrite getKeywords_eq.
  destruct (stored_keywords s) as [|kc rest] eqn:Hstored; [reflexivity|].
  destruct Hskip as [Hnone|Htopic]; [discriminate|].
  cbn [length]. rewrite decide_False by lia. by rewrite Htopic.
Qed.

(** X10.  A poll cycle that gets to its loop sends one search per stored
    keyword, in the order of the keywords, then one notification when its
    batch is not empty and none when it is empty, and nothing else. *)
Theorem cycle_requests env s :
  cycle_scans Date_now env s →
  let final := snd (handleScheduled fetch ai_run Date_now env s) in
  requests final
  = requests s
    ++ map (search_request (cycle_lastCheck Date_now s)) (stored_keywords s)
    ++ match matches final with
       | [] => []
       | _ :: _ => [notification_request env (matches final)]
       end.
Proof.
  intros Hcycle final. subst final.
  destruct (handleScheduled_final fetch ai_run Date_now env s Hcycle)
    as (Hms & _ & Hnone & Hsome).
  destruct (scan_end_frame s) as (_ & Hrq). rewrite Hms.
  destruct (matches (scan_end fetch ai_run Date_now s)) as [|first rest] eqn:Hbatch.
  - rewrite Hnone by done. by rewrite Hrq, app_nil_r.
  - rewrite Hsome by done. by rewrite Hrq, <- app_assoc.
Qed.

Lemma cycle_keeps_keywords_aux env s :
  KEYWORDS_KEY (HN_KV (snd (handleScheduled fetch ai_run Date_now env s)))
  = KEYWORDS_KEY (HN_KV s).
Proof.
  destruct (scan_end_frame s) as (Hkv & _).
  destruct (handleScheduled_cases env s)
    as [[_ Hrun]|[(_ & _ & _ & Hrun)|[(_ & _ & Hrun)|(_ & _ & [(? & _ & Hrun)|(? & _ & Hrun)])]]];
    rewrite Hrun; cbn [fst snd]; cbn [HN_KV set_HN_KV KEYWORDS_KEY]; rewrite ?Hkv; try done.
  by destruct (clock_read_frame s) as (-> & _).
Qed.

(** X11.  A poll cycle never changes the text under the keywords key, and a
    poll cycle that throws leaves the whole namespace, the last-check key
    included, as it was. *)
Theorem cycle_keeps_keywords env s :
  let hs := handleScheduled fetch ai_run Date_now env s in
  KEYWORDS_KEY (HN_KV (snd hs)) = KEYWORDS_KEY (HN_KV s)
  ∧ ∀ e, fst hs = Throw e → HN_KV (snd hs) = HN_KV s.
Proof.
  intros hs. destruct (scan_end_frame s) as (Hkv & _).
  destruct (clock_read_frame s) as (Hkv2 & _).
  destruct (handleScheduled_cases env s)
    as [[_ Hrun]|[(_ & _ & _ & Hrun)|[(_ & _ & Hrun)|(_ & _ & [(? & _ & Hrun)|(? & _ & Hrun)])]]];
    subst hs; rewrite Hrun; cbn [fst snd]; cbn [HN_KV set_HN_KV KEYWORDS_KEY];
    rewrite ?Hkv, ?Hkv2; (split; [done|]); try done; intros ? [=].
Qed.

(** X12.  After a poll cycle that reached its end, the next read of the
    watermark returns the [now] of that cycle, without reading the clock,
    and the stored keywords are those of before: the next cycle searches the
    same keywords from where this one stopped. *)
Theorem next_cycle_starts_at_now env s s' :
  handleScheduled fetch ai_run Date_now env s = (Ok tt, s') →
  stored_keywords s ≠ [] →
  otruthy (NTFY_TOPIC env) = true →
  getLastCheckTimestamp Date_now s' = (Ok (cycle_now Date_now s), s')
  ∧ stored_keywords s' = stored_keywords s.
Proof.
  intros Hrun Hkws Htopic.
  pose proof (handleScheduled_completed fetch ai_run Date_now env s s' Hrun Hkws Htopic)
    as Hmark.
  pose proof (cycle_keeps_keywords_aux env s) as Hkeep.
  rewrite Hrun in Hkeep. cbn [snd] in Hkeep. split.
  - unfold getLastCheckTimestamp, bind, kv_get. by rewrite Hmark.
  - by apply stored_keywords_ext.
Qed.

(** X13.  With keywords stored and the topic configured, a stored watermark
    whose time in milliseconds is outside the range of [Date] makes the poll
    cycle throw "Invalid time value" before any request is sent, and the
    namespace, this watermark included, stays as it was. *)
Theorem cycle_with_watermark_out_of_range env s (t : Z) :
  stored_keywords s ≠ [] →
  otruthy (NTFY_TOPIC env) = true →
  LAST_CHECK_KEY (HN_KV s) = Some t →
  (8640000000000000 < Z.abs (t * 1000))%Z →
  let hs := handleScheduled fetch ai_run Date_now env s in
  fst hs = Throw (Error (lit "Invalid time value"))
  ∧ requests (snd hs) = requests s
  ∧ HN_KV (snd hs) = HN_KV s.
Proof.
  intros Hkws Htopic Hmark Hrange hs. subst hs.
  assert (cycle_lastCheck Date_now s = t) as Hlc.
  { unfold cycle_lastCheck, getLastCheckTimestamp, bind, kv_get. by rewrite Hmark. }
  rewrite handleScheduled_eq by done. rewrite Hlc, decide_True by done.
  destruct (clock_read_frame s) as (Hkv & Hrq). by cbn [fst snd].
Qed.

(** *** The numbers of the last log line *)

Lemma size_add_fresh (id : jsstring) (seen : gset jsstring) :
  id ∉ seen → size ({[id]} ∪ seen) = S (size seen).
Proof.
  intros Hout. rewrite size_union by (by apply disjoint_singleton_l).
  by rewrite size_singleton.
Qed.

Lemma scanHit_counts kc h s :
  counts_add_up s → counts_add_up (snd (scanHit ai_run kc h s)).
Proof.
  unfold counts_add_up. intros Hinv.
  destruct (decide (objectID h ∈ seenIds s)) as [Hin|Hout].
  { by rewrite scanHit_seen. }
  rewrite scanHit_fresh by done.
  pose proof (size_add_fresh _ _ Hout) as Hsize.
  destruct (otruthy (context kc)).
  - pose proof (checkRelevance_frame ai_run (default [] (context kc)) h
                  (snd (seenIds_add (objectID h) s))) as Hfr.
    destruct (checkRelevance _ _ _ _) as [[sc|e] s2]; cbn [snd] in Hfr.
    + destruct (Qltb sc RELEVANCE_THRESHOLD); rewrite Hfr; cbn;
        rewrite Hsize, ?length_app; cbn; lia.
    + rewrite Hfr. cbn. rewrite Hsize, length_app. cbn. lia.
  - cbn. rewrite Hsize, length_app. cbn. lia.
Qed.

Lemma scanKeyword_counts lastCheck kc s :
  counts_add_up s → counts_add_up (snd (scanKeyword fetch ai_run lastCheck kc s)).
Proof.
  intros Hinv. rewrite scanKeyword_eq. cbn [snd].
  destruct (searchHN_frame fetch (keyword kc) lastCheck s) as (_ & _ & Hseen & Hms & Hfc).
  destruct (searchHN fetch (keyword kc) lastCheck s) as [[found|e] s1]; cbn [snd] in *.
  - assert (counts_add_up s1) as Hinv1
      by (unfold counts_add_up in *; by rewrite Hseen, Hms, Hfc).
    rewrite for_of_total by apply scanHit_total. cbn [snd].
    clear Hseen Hms Hfc. revert s1 Hinv1.
    induction found as [|h rest IH]; intros s1 Hinv1; [done|].
    cbn [fold_left]. by apply IH, scanHit_counts.
  - unfold counts_add_up in *. by rewrite Hseen, Hms, Hfc.
Qed.

Lemma scanKeywords_counts lastCheck kws s :
  counts_add_up s → counts_add_up (snd (scanKeywords fetch ai_run kws lastCheck s)).
Proof.
  rewrite scanKeywords_eq. cbn [snd]. revert s.
  induction kws as [|kc rest IH]; intros s Hinv; [done|].
  cbn [fold_left]. by apply IH, scanKeyword_counts.
Qed.

Lemma handleScheduled_locals env s :
  cycle_scans Date_now env s →
  let final := snd (handleScheduled fetch ai_run Date_now env s) in
  let se := scan_end fetch ai_run Date_now s in
  seenIds final = seenIds se ∧ matches final = matches se
  ∧ filteredCount final = filteredCount se.
Proof.
  intros (Hkws & Htopic & Hdate).
  destruct (handleScheduled_cases env s)
    as [[[?|Hno] _]|[(_ & _ & ? & _)|[(_ & _ & Hrun)|(_ & _ & [(? & _ & Hrun)|(? & _ & Hrun)])]]];
    [done|congruence|lia|..]; cbn zeta; by rewrite Hrun.
Qed.

Lemma returned_ids_seen lastCheck kws j kc found (id : jsstring) s0 :
  batch_ok s0 → kws !! j = Some kc →
  search_outcome fetch ai_run lastCheck kws j kc s0 = Ok found →
  id ∈ map objectID found →
  id ∈ seenIds (snd (scanKeywords fetch ai_run kws lastCheck s0)).
Proof.
  intros Hok Hj Hout Hid.
  rewrite (scanned_rest fetch ai_run lastCheck kws (S j) s0).
  destruct (scanKeywords_spec fetch ai_run lastCheck (drop (S j) kws) _
              (scanned_ok fetch ai_run lastCheck kws (S j) s0 Hok)) as (_ & Hsub & _).
  apply Hsub. rewrite (scanned_S fetch ai_run _ _ _ _ _ Hj).
  destruct (scanKeyword_spec fetch ai_run lastCheck kc _
              (scanned_ok fetch ai_run lastCheck kws j s0 Hok)) as (_ & _ & Hret & _).
  apply list_elem_of_fmap in Hid as (h & -> & Hh). by apply (Hret found).
Qed.

(** X14.  At the end of a poll cycle that got to its loop, the numbers of
    its last log line add up: the ids seen are as many as the matches and
    the filtered hits together; and the ids seen are the ids of the hits
    that the searches of the cycle returned. *)
Theorem cycle_counts_add_up env s :
  cycle_scans Date_now env s →
  let kws := stored_keywords s in
  let lastCheck := cycle_lastCheck Date_now s in
  let s0 := scan_start Date_now s in
  let final := snd (handleScheduled fetch ai_run Date_now env s) in
  size (seenIds final) = length (matches final) + filteredCount final
  ∧ ∀ id, id ∈ seenIds final ↔
          ∃ j kc found, kws !! j = Some kc
            ∧ search_outcome fetch ai_run lastCheck kws j kc s0 = Ok found
            ∧ id ∈ map objectID found.
Proof.
  intros Hcycle kws lastCheck s0 final. subst kws lastCheck s0 final.
  destruct (handleScheduled_locals env s Hcycle) as (-> & -> & ->).
  destruct (scan_start_frame Date_now s) as (_ & _ & Hseen0 & Hms0).
  split.
  - apply scanKeywords_counts. unfold counts_add_up.
    rewrite Hseen0, Hms0. cbn [scan_start init_locals snd filteredCount]. by rewrite size_empty.
  - intros id. unfold scan_end. split.
    + rewrite scanned_all. intros Hid.
      apply seen_origin in Hid as [Hid|(j & kc & found & _ & Hrest)];
        [|by exists j, kc, found|apply scan_start_ok|done].
      rewrite Hseen0 in Hid. by apply not_elem_of_empty in Hid.
    + intros (j & kc & found & Hj & Hout & Hid).
      by apply (returned_ids_seen _ _ j kc found id _ (scan_start_ok Date_now s)).
Qed.

(** *** The HTTP handler *)

Local Notation "'HR'" :=
  (handleRequest toLowerCase decodeURIComponent toISOString fetch ai_run Date_now).
Local Notation "'ROUTES'" :=
  (routes toLowerCase decodeURIComponent toISOString fetch ai_run Date_now).

Ltac closed_tests :=
  repeat match goal with
  | |- context [bool_decide (?a = ?b)] =>
      first [ rewrite (bool_decide_eq_true_2 (a = b)) by reflexivity
            | rewrite (bool_decide_eq_false_2 (a = b)) by (vm_compute; discriminate)
            | rewrite (bool_decide_eq_false_2 (a = b)) by done
            | rewrite (bool_decide_eq_true_2 (a = b)) by done ]
  | |- context [decide (?a = ?b)] =>
      first [ rewrite (decide_True (P := a = b)) by reflexivity
            | rewrite (decide_False (P := a = b)) by (vm_compute; discriminate)
            | rewrite (decide_False (P := a = b)) by done
            | rewrite (decide_True (P := a = b)) by done ]
  end;
  cbn [andb];
  rewrite ?andb_false_r, ?andb_true_r; cbn [andb].

Lemma bind_Ok_inv {A B} (m : M World A) (f : A → M World B) s b s' :
  bind m f s = (Ok b, s') → ∃ a s1, m s = (Ok a, s1) ∧ f a s1 = (Ok b, s').
Proof.
  unfold bind. destruct (m s) as [[a|e] s1]; [|discriminate].
  intros Hrun. exists a, s1. split; [reflexivity|exact Hrun].
Qed.

Lemma startsWith_app (pattern rest : jsstring) : startsWith (pattern ++ rest) pattern = true.
Proof.
  induction pattern as [|ch pattern IH]; [by destruct rest|]. cbn. by rewrite N.eqb_refl.
Qed.

Lemma replace_first_prefix (pattern rest : jsstring) :
  replace_first pattern (pattern ++ rest) = rest.
Proof.
  assert (∀ txt, replace_first pattern txt
                 = if startsWith txt pattern then drop (length pattern) txt
                   else match txt with
                        | [] => []
                        | ch :: txt' => ch :: replace_first pattern txt'
                        end) as Hunfold by (by intros [|ch txt]).
  rewrite Hunfold, startsWith_app. by rewrite drop_app_length.
Qed.

Lemma routes_headers request env s resp s' :
  ROUTES request env s = (Ok resp, s') → response_headers resp = corsHeaders.
Proof.
  unfold routes.
  repeat match goal with
         | |- context [if ?b then _ else _] => destruct b
         end;
    intros Hrun;
    repeat (apply bind_Ok_inv in Hrun as (? & ? & _ & Hrun));
    by injection Hrun as <- _.
Qed.

(** X15.  [handleRequest] never throws: whatever the request and whatever
    its routes throw, it returns a response, and the response carries the
    CORS headers. *)
Theorem handleRequest_always_responds request env s :
  ∃ resp, fst (HR request env s) = Ok resp ∧ response_headers resp = corsHeaders.
Proof.
  unfold handleRequest. case_decide.
  { by exists (Response_null corsHeaders). }
  unfold try_catch. destruct (ROUTES request env s) as [[resp|e] s1] eqn:Hroutes.
  - exists resp. split; [done|]. by apply (routes_headers request env s resp s1).
  - by eexists.
Qed.

(** X16.  A POST of a keyword whose body cannot be read or whose keyword is
    blank, and a DELETE whose escaped keyword cannot be decoded, are
    answered with status 500 and the message of the error, and change
    nothing. *)
Theorem rejected_requests_change_nothing env s (body : Result PostBody)
    (encoded : jsstring) (e : Thrown) :
  let respond :=
    (Ok (Response_json (ErrorPayload (error_message e)) 500 corsHeaders), s) in
  (body = Throw e
   ∨ (∃ b, body = Ok b ∧ toLowerCase (trim (body_keyword b)) = []
           ∧ e = Error (lit "Keyword cannot be empty")) →
   HR (mkHttpRequest (lit "POST") (lit "/keywords") body) env s = respond)
  ∧ (decodeURIComponent encoded = Throw e →
     HR (mkHttpRequest (lit "DELETE") (lit "/keywords/" ++ encoded) body) env s = respond).
Proof.
  intros respond. subst respond. split.
  - intros Hbad. unfold handleRequest, routes, try_catch. cbn [method pathname request_json].
    closed_tests. unfold bind.
    destruct Hbad as [->|(b & -> & Hblank & ->)]; [done|]. cbn [settled ret].
    by rewrite addKeyword_empty_eq.
  - intros Hbad. unfold handleRequest, routes, try_catch. cbn [method pathname request_json].
    closed_tests. rewrite startsWith_app, replace_first_prefix. cbn [andb].
    unfold bind. by rewrite Hbad.
Qed.

(** X17.  A GET or OPTIONS request, whatever its path, leaves the namespace
    as it was and sends no request. *)
Theorem safe_methods_change_nothing request env s :
  method request = lit "GET" ∨ method request = lit "OPTIONS" →
  HN_KV (snd (HR request env s)) = HN_KV s
  ∧ requests (snd (HR request env s)) = requests s.
Proof.
  destruct request as [m path body]. cbn [method]. unfold handleRequest.
  intros [-> | ->]; [|by rewrite decide_True].
  cbn [method pathname request_json]. unfold routes, try_catch.
  cbn [method pathname request_json]. closed_tests.
  destruct (bool_decide (path = lit "/keywords")); cbn [andb].
  { unfold bind. by rewrite getKeywords_eq. }
  destruct (bool_decide (path = lit "/status")); cbn [andb]; [|done].
  unfold bind. rewrite getKeywords_eq, getLastCheckTimestamp_eq.
  pose proof (getLastCheckTimestamp_frame Date_now s) as Hfr. cbn zeta in Hfr.
  set (s1 := snd (getLastCheckTimestamp Date_now s)) in *. clearbody s1.
  unfold Date_ISO. case_decide; cbn; rewrite Hfr; by cbn.
Qed.

Lemma get_keywords_eq env s (ignored : Result PostBody) :
  HR (mkHttpRequest (lit "GET") (lit "/keywords") ignored) env s
  = (Ok (Response_json (KeywordsPayload (stored_keywords s)) 200 corsHeaders), s).
Proof.
  unfold handleRequest, routes, try_catch. cbn [method pathname request_json].
  closed_tests. unfold bind. by rewrite getKeywords_eq.
Qed.

Lemma post_keywords_eq env s (body : PostBody) :
  toLowerCase (trim (body_keyword body)) ≠ [] →
  let keywords :=
    upsert (toLowerCase (trim (body_keyword body))) (trimContext (body_context body))
      (stored_keywords s) in
  HR (mkHttpRequest (lit "POST") (lit "/keywords") (Ok body)) env s
  = (Ok (Response_json (KeywordsPayload keywords) 200 corsHeaders),
     with_keywords (Some (JsonConfigs keywords)) s).
Proof.
  intros Hn. unfold handleRequest, routes, try_catch. cbn [method pathname request_json].
  closed_tests. unfold bind. cbn [settled ret].
  by rewrite (addKeyword_eq toLowerCase (body_keyword body) (body_context body) s Hn).
Qed.

Lemma delete_keyword_eq env s (encoded k : jsstring) (ignored : Result PostBody) :
  decodeURIComponent encoded = Ok k →
  let filtered :=
    filter (fun e => ¬ keyword_is (toLowerCase (trim k)) e) (stored_keywords s) in
  HR (mkHttpRequest (lit "DELETE") (lit "/keywords/" ++ encoded) ignored) env s
  = (Ok (Response_json (KeywordsPayload filtered) 200 corsHeaders),
     with_keywords (Some (JsonConfigs filtered)) s).
Proof.
  intros Hk. unfold handleRequest, routes, try_catch. cbn [method pathname request_json].
  closed_tests. rewrite startsWith_app, replace_first_prefix. cbn [andb].
  unfold bind. rewrite Hk. cbn [settled ret]. by rewrite removeKeyword_eq.
Qed.

(** X18.  A POST of a keyword that is not blank is answered with status 200
    and a keyword sequence, and a GET of the keywords right after it is
    answered with the same sequence. *)
Theorem post_then_get_keywords env s (body : PostBody) (ignored : Result PostBody) :
  toLowerCase (trim (body_keyword body)) ≠ [] →
  let posted := HR (mkHttpRequest (lit "POST") (lit "/keywords") (Ok body)) env s in
  ∃ keywords,
    fst posted = Ok (Response_json (KeywordsPayload keywords) 200 corsHeaders)
    ∧ HR (mkHttpRequest (lit "GET") (lit "/keywords") ignored) env (snd posted)
      = (Ok (Response_json (KeywordsPayload keywords) 200 corsHeaders), snd posted).
Proof.
  intros Hn posted. subst posted. rewrite (post_keywords_eq env s body Hn).
  cbn [fst snd]. eexists. split; [reflexivity|].
  rewrite get_keywords_eq. unfold with_keywords. by rewrite stored_keywords_put.
Qed.

(** X19.  A DELETE of [/keywords/<escaped>] whose keyword decodes is answered
    with status 200 and the stored sequence without the entries of the
    decoded, normalized keyword; the same DELETE again gets the same answer
    and leaves the state as it is. *)
Theorem delete_keyword_idempotent env s (encoded k : jsstring) (ignored : Result PostBody) :
  decodeURIComponent encoded = Ok k →
  let request := mkHttpRequest (lit "DELETE") (lit "/keywords/" ++ encoded) ignored in
  let deleted := HR request env s in
  fst deleted
  = Ok (Response_json
          (KeywordsPayload
             (filter (fun e => keyword e ≠ toLowerCase (trim k)) (stored_keywords s)))
          200 corsHeaders)
  ∧ HR request env (snd deleted) = (fst deleted, snd deleted).
Proof.
  intros Hk request deleted. subst deleted request.
  rewrite !(delete_keyword_eq env _ encoded k ignored Hk). cbn [fst snd].
  split; [reflexivity|]. unfold with_keywords.
  cbn [HN_KV set_HN_KV LAST_CHECK_KEY]. rewrite !stored_keywords_put.
  by rewrite filter_filter_keyword.
Qed.

(** X20.  A request whose method is none of OPTIONS, GET, POST and DELETE,
    or whose method is not OPTIONS and whose path is none of [/keywords],
    [/status], [/trigger] and does not start with [/keywords/], is answered
    404 "Not found" and changes nothing. *)
Theorem unknown_route_not_found request env s :
  method request ≠ lit "OPTIONS" →
  (method request ≠ lit "GET" ∧ method request ≠ lit "POST"
   ∧ method request ≠ lit "DELETE")
  ∨ (pathname request ≠ lit "/keywords" ∧ pathname request ≠ lit "/status"
     ∧ pathname request ≠ lit "/trigger"
     ∧ startsWith (pathname request) (lit "/keywords/") = false) →
  HR request env s
  = (Ok (Response_json (ErrorPayload (lit "Not found")) 404 corsHeaders), s).
Proof.
  intros Hoptions Hunknown. unfold handleRequest, routes, try_catch.
  rewrite decide_False by done.
  destruct Hunknown as [(Hget & Hpost & Hdelete)|(Hk & Hs & Ht & Hprefix)].
  - rewrite !(bool_decide_eq_false_2 (method request = _)) by done.
    by rewrite !andb_false_r.
  - rewrite !(bool_decide_eq_false_2 (pathname request = _)) by done.
    by rewrite Hprefix.
Qed.

(** X21.  A POST of [/trigger] runs one poll cycle: when the cycle returns,
    the answer is status 200 with [ok: true] and the state is the one the
    cycle ended in; when the cycle throws, the answer is status 500 with the
    message of the error, and the namespace is as it was before. *)
Theorem trigger_runs_one_cycle env s (ignored : Result PostBody) :
  let request := mkHttpRequest (lit "POST") (lit "/trigger") ignored in
  let cycle := handleScheduled fetch ai_run Date_now env s in
  (fst cycle = Ok tt →
   HR request env s
   = (Ok (Response_json (TriggerPayload true (lit "Check triggered")) 200 corsHeaders),
      snd cycle))
  ∧ (∀ e, fst cycle = Throw e →
     HR request env s
     = (Ok (Response_json (ErrorPayload (error_message e)) 500 corsHeaders), snd cycle)
     ∧ HN_KV (snd (HR request env s)) = HN_KV s).
Proof.
  intros request cycle. subst request.
  pose proof (handleScheduled_cases env s) as Hcases.
  assert (∀ e, fst cycle = Throw e → HN_KV (snd cycle) = HN_KV s) as Hkept.
  { intros e He. subst cycle. destruct (scan_end_frame s) as (Hkv & _).
    destruct (clock_read_frame s) as (Hkv2 & _).
    destruct Hcases
      as [[_ Hrun]|[(_ & _ & _ & Hrun)|[(_ & _ & Hrun)|(_ & _ & [(? & _ & Hrun)|(? & _ & Hrun)])]]];
      rewrite Hrun in *; cbn [fst snd] in *; try discriminate; cbn [HN_KV]; done. }
  unfold handleRequest, routes, try_catch. cbn [method pathname request_json].
  closed_tests. unfold bind. fold cycle.
  destruct cycle as [[[]|e] s1]; cbn [fst snd] in *; split; try done.
  - intros ? [= <-]. split; [done|]. cbn [snd]. by apply (Hkept e).
Qed.

End MoreProperties.

(** *** The earlier version of the keyword store, and the two together *)

Section LegacyProperties.

Context (toLowerCase : jsstring -> jsstring) {World : Type}.

Implicit Types (kv : Legacy.KV) (s : State World) (k n : jsstring).

Lemma truthy_nil_iff (n : jsstring) : truthy n = false ↔ n = [].
Proof. by destruct n. Qed.

Lemma Legacy_addKeyword_cases k kv :
  let n := toLowerCase (trim k) in
  let l := Legacy.getKeywords kv in
  (n = [] ∧ Legacy.addKeyword toLowerCase k kv
            = (Throw (Error (lit "Keyword cannot be empty")), kv))
  ∨ (n ≠ [] ∧ n ∈ l ∧ Legacy.addKeyword toLowerCase k kv = (Ok l, kv))
  ∨ (n ≠ [] ∧ (n ∉ l)
     ∧ Legacy.addKeyword toLowerCase k kv
       = (Ok (l ++ [n]), Legacy.mkKV (Some (l ++ [n])) (Legacy.LAST_CHECK_KEY kv))).
Proof.
  intros n l. unfold Legacy.addKeyword. fold n l.
  destruct n as [|c0 n'] eqn:E; [left; done|]. right. cbn [truthy negb].
  case_decide; [left|right]; done.
Qed.

Lemma stored_keywords_migrated kv s :
  stored_keywords (migrated kv s) = map plain (Legacy.getKeywords kv).
Proof.
  unfold stored_keywords, migrated, found_by_current, getKeywords, bind, kv_get,
    Legacy.getKeywords.
  cbn. by destruct (Legacy.KEYWORDS_KEY kv) as [[|k0 l]|].
Qed.

Lemma map_keyword_plain (l : list jsstring) : map keyword (map plain l) = l.
Proof. induction l as [|a l IH]; [done|]. cbn. by rewrite IH. Qed.

Lemma filter_map_plain n (l : list jsstring) :
  filter (fun e => ¬ keyword_is n e) (map plain l)
  = map plain (filter (fun k => k ≠ n) l).
Proof.
  induction l as [|a l IH]; [done|]. cbn [map].
  rewrite !filter_cons, IH. unfold keyword_is, plain at 1. cbn [keyword].
  by repeat case_decide.
Qed.

(** X22.  [addKeyword] of the earlier version, called again with the same
    keyword on the namespace it left, gives the same outcome and leaves the
    namespace as it is; and a list it returns holds the normalized
    keyword. *)
Theorem legacy_addKeyword_idempotent k kv :
  let added := Legacy.addKeyword toLowerCase k kv in
  Legacy.addKeyword toLowerCase k (snd added) = added
  ∧ ∀ l, fst added = Ok l → toLowerCase (trim k) ∈ l.
Proof.
  intros added. subst added.
  destruct (Legacy_addKeyword_cases k kv) as [(Hn & ->)|[(Hn & Hin & ->)|(Hn & Hout & ->)]];
    cbn [fst snd].
  - split; [|done].
    destruct (Legacy_addKeyword_cases k kv) as [(_ & ->)|[(? & _)|(? & _)]]; done.
  - split; [|by intros ? [= <-]].
    destruct (Legacy_addKeyword_cases k kv) as [(? & _)|[(_ & _ & ->)|(_ & ? & _)]]; done.
  - split; [|intros ? [= <-]; apply elem_of_app; right; by left].
    set (kv' := Legacy.mkKV _ _).
    destruct (Legacy_addKeyword_cases k kv') as [(? & _)|[(_ & _ & ->)|(_ & Hout' & _)]];
      [done|done|].
    destruct Hout'. cbn. apply elem_of_app. right. by left.
Qed.

(** X23.  The earlier version keeps the stored strings distinct: from a
    namespace whose strings are distinct, [addKeyword] and [removeKeyword]
    leave one whose strings are distinct. *)
Theorem legacy_store_keeps_distinct k kv :
  NoDup (Legacy.getKeywords kv) →
  NoDup (Legacy.getKeywords (snd (Legacy.addKeyword toLowerCase k kv)))
  ∧ NoDup (Legacy.getKeywords (snd (Legacy.removeKeyword toLowerCase k kv))).
Proof.
  intros Hnd. split.
  - destruct (Legacy_addKeyword_cases k kv) as [(_ & ->)|[(_ & _ & ->)|(_ & Hout & ->)]];
      cbn [fst snd]; [done|done|].
    cbn. apply NoDup_app. split; [done|]. split; [|apply NoDup_singleton].
    intros x Hx Hx'. apply elem_of_cons in Hx' as [->|Hx']; [done|].
    by apply elem_of_nil in Hx'.
  - cbn. by apply NoDup_filter.
Qed.

(** X24.  On a namespace written by the earlier version, the current
    [addKeyword], with whatever context, returns entries whose keywords are
    the strings the earlier [addKeyword] returns, in their order, and the
    same entries without context when no context is given; it throws the
    same error when the earlier one throws. *)
Theorem versions_agree_on_add k (c : option jsstring) kv s :
  match fst (Legacy.addKeyword toLowerCase k kv) with
  | Ok l =>
      ∃ entries,
        fst (addKeyword toLowerCase k c (migrated kv s)) = Ok entries
        ∧ map keyword entries = l
        ∧ (trimContext c = None → entries = map plain l)
  | Throw e => fst (addKeyword toLowerCase k c (migrated kv s)) = Throw e
  end.
Proof.
  destruct (Legacy_addKeyword_cases k kv) as [(Hn & ->)|[(Hn & Hin & ->)|(Hn & Hout & ->)]];
    cbn [fst snd].
  - by rewrite addKeyword_empty_eq.
  - rewrite addKeyword_eq by done. cbn [fst]. rewrite stored_keywords_migrated.
    eexists. split; [reflexivity|]. split.
    + rewrite upsert_keywords_present by by rewrite map_keyword_plain.
      apply map_keyword_plain.
    + intros ->. clear Hn. induction (Legacy.getKeywords kv) as [|a l IH];
        [by inversion Hin|].
      cbn [map]. rewrite upsert_cons. case_decide as Ha; [done|].
      f_equal. destruct (decide (toLowerCase (trim k) ∈ l)) as [Hl|Hl]; [by apply IH|].
      apply elem_of_cons in Hin as [Hin|Hin]; [|done]. by destruct Ha.
  - rewrite addKeyword_eq by done. cbn [fst]. rewrite stored_keywords_migrated.
    rewrite upsert_keywords_fresh by by rewrite map_keyword_plain.
    eexists. split; [reflexivity|]. split.
    + rewrite map_app, map_keyword_plain. done.
    + intros ->. by rewrite map_app.
Qed.

(** X25.  On a namespace written by the earlier version, the current
    [removeKeyword] returns, as entries without context, the strings the
    earlier [removeKeyword] returns, and what it stores the current
    [getKeywords] reads as these entries. *)
Theorem versions_agree_on_remove k kv s :
  ∃ l,
    fst (Legacy.removeKeyword toLowerCase k kv) = Ok l
    ∧ fst (removeKeyword toLowerCase k (migrated kv s)) = Ok (map plain l)
    ∧ stored_keywords (snd (removeKeyword toLowerCase k (migrated kv s))) = map plain l
    ∧ stored_keywords
        (migrated (snd (Legacy.removeKeyword toLowerCase k kv)) s) = map plain l.
Proof.
  eexists. split; [reflexivity|]. rewrite removeKeyword_eq. cbn [fst snd].
  rewrite stored_keywords_migrated, filter_map_plain.
  split; [done|]. split; [done|]. by rewrite stored_keywords_migrated.
Qed.

End LegacyProperties.

(** *** The body of a notification of one match *)

(** X26.  The body of the notification of one match whose hit has a comment
    is a start of the comment with its tags stripped, of 200 units at most,
    followed by three dots: it has 203 units at most and no [<] in it is
    followed by a [>]. *)
Theorem comment_body_bounded_tag_free (k : jsstring) (h : HNHit) (c : jsstring) :
  comment_text h = Some c → c ≠ [] →
  let body := snd (formatBatchNotification [mkMatchedHit k h]) in
  tag_free body
  ∧ length body ≤ 203
  ∧ ∃ text, body = text ++ lit "..." ∧ text `prefix_of` strip_tags c ∧ length text ≤ 200.
Proof.
  intros Hc Hne body. subst body. cbn [formatBatchNotification snd hit].
  unfold formatHitBody, substring0. rewrite Hc. destruct c as [|c0 c']; [done|].
  cbn [otruthy truthy default from_option id].
  set (stripped := strip_tags (c0 :: c')).
  assert (length (take 200 stripped) ≤ 200) as Hlen by (rewrite length_take; lia).
  split_and!.
  - apply tag_free_app.
    + apply tag_free_take, strip_scan_tag_free.
    + apply (bool_decide_unpack _). vm_compute. exact I.
    + apply (bool_decide_unpack _). vm_compute. exact I.
  - rewrite length_app. change (length (lit "...")) with 3. lia.
  - exists (take 200 stripped). split; [done|]. split; [|done].
    exists (drop 200 stripped). by rewrite take_drop.
Qed.

(** ** Runs of the further properties on the concrete world *)

(** "Go" is not among "rust" and "zig": removing it returns both. *)
Lemma removeKeyword_absent_noop_witness :
  fst (removeKeyword toLowerCase_ascii (lit "Go") (demo_cycle false)) = Ok [rust; zig].
Proof.
  refine (proj1 (removeKeyword_absent_noop toLowerCase_ascii (lit "Go") (demo_cycle false) _)).
  apply (bool_decide_unpack _). vm_compute. exact I.
Defined.

(** Adding " Go " to "rust" and "zig" and removing it again. *)
Lemma add_then_remove_round_trip_witness :
  stored_keywords
    (snd (removeKeyword toLowerCase_ascii (lit " Go ")
            (snd (addKeyword toLowerCase_ascii (lit " Go ") (Some (lit "golang"))
                    (demo_cycle false)))))
  = stored_keywords (demo_cycle false).
Proof.
  apply (add_then_remove_round_trip toLowerCase_ascii (lit " Go ") (Some (lit "golang"))
           (demo_cycle false)).
  - vm_compute. discriminate.
  - apply (bool_decide_unpack _). vm_compute. exact I.
Defined.

(** Adding " Zig " with a context: the call returns what is stored. *)
Lemma addKeyword_then_lookup_witness :
  fst (addKeyword toLowerCase_ascii (lit " Zig ") (Some (lit " the language "))
         (demo_cycle false))
  = Ok (stored_keywords
          (snd (addKeyword toLowerCase_ascii (lit " Zig ") (Some (lit " the language "))
                  (demo_cycle false)))).
Proof.
  refine (proj1 (addKeyword_then_lookup toLowerCase_ascii (lit " Zig ")
                   (Some (lit " the language ")) (demo_cycle false) _)).
  vm_compute. discriminate.
Defined.

(** Adding " Go " to "rust" and "zig" stores three entries. *)
Lemma addKeyword_keeps_others_witness :
  length (stored_keywords
            (snd (addKeyword toLowerCase_ascii (lit " Go ") None (demo_cycle false))))
  = 3.
Proof.
  assert (toLowerCase_ascii (trim (lit " Go ")) ≠ []) as Hn by (vm_compute; discriminate).
  pose proof (proj2 (addKeyword_keeps_others toLowerCase_ascii (lit " Go ") None
                       (demo_cycle false) Hn)) as Hlength.
  vm_compute in Hlength. vm_compute. exact Hlength.
Defined.

(** Removing "RUST" from "rust" and "zig" writes the keywords and nothing
    else. *)
Lemma add_remove_write_keywords_only_witness :
  snd (removeKeyword toLowerCase_ascii (lit "RUST") (demo_cycle false))
  = demo_state false (Some (JsonConfigs [zig])).
Proof.
  exact (add_remove_write_keywords_only toLowerCase_ascii (lit "RUST") None
           (demo_cycle false) [zig]
           (snd (removeKeyword toLowerCase_ascii (lit "RUST") (demo_cycle false)))
           (or_intror eq_refl)).
Defined.

(** A text with a [>] and no [<] is left as it is. *)
Lemma strip_tags_leaves_no_tag_witness : strip_tags (lit "a > b") = lit "a > b".
Proof.
  apply (proj1 (proj2 (proj2 (strip_tags_leaves_no_tag (lit "a > b"))))).
  intros before after Htext.
  assert (LT ∈ lit "a > b") as Hin.
  { rewrite Htext. apply elem_of_app. right. left. }
  exfalso. revert Hin. apply (bool_decide_unpack (LT ∉ lit "a > b")).
  vm_compute. exact I.
Defined.

(** With nothing stored the cycle returns at once. *)
Lemma cycle_without_keywords_or_topic_witness :
  handleScheduled demo_fetch demo_ai_run demo_Date_now demo_env (demo_state false None)
  = (Ok tt, demo_state false None).
Proof.
  apply (cycle_without_keywords_or_topic demo_fetch demo_ai_run demo_Date_now demo_env
           (demo_state false None)).
  left. reflexivity.
Defined.

(** The cycle over "rust" and "zig" sends two searches and one notification. *)
Lemma cycle_requests_witness :
  length (requests (snd (handleScheduled demo_fetch demo_ai_run demo_Date_now demo_env
                           (demo_cycle false))))
  = 3.
Proof.
  assert (cycle_scans demo_Date_now demo_env (demo_cycle false)) as Hcycle.
  { split_and!; [vm_compute; discriminate|reflexivity|vm_compute; discriminate]. }
  pose proof (cycle_requests demo_fetch demo_ai_run demo_Date_now demo_env
                (demo_cycle false) Hcycle) as Hrequests.
  cbv zeta in Hrequests. rewrite Hrequests. vm_compute. reflexivity.
Defined.

(** With ntfy.sh down the cycle throws and the namespace is as before. *)
Lemma cycle_keeps_keywords_witness :
  HN_KV (snd (handleScheduled demo_fetch demo_ai_run demo_Date_now demo_env
                (demo_cycle true)))
  = HN_KV (demo_cycle true).
Proof.
  eapply (proj2 (cycle_keeps_keywords demo_fetch demo_ai_run demo_Date_now demo_env
                   (demo_cycle true))).
  vm_compute. reflexivity.
Defined.

(** After the cycle over "rust" and "zig" the watermark read is the time of
    the cycle. *)
Lemma next_cycle_starts_at_now_witness :
  getLastCheckTimestamp demo_Date_now
    (snd (handleScheduled demo_fetch demo_ai_run demo_Date_now demo_env (demo_cycle false)))
  = (Ok 1700000000%Z,
     snd (handleScheduled demo_fetch demo_ai_run demo_Date_now demo_env (demo_cycle false))).
Proof.
  refine (proj1 (next_cycle_starts_at_now demo_fetch demo_ai_run demo_Date_now demo_env
                   (demo_cycle false) _ _ _ _)).
  - vm_compute. reflexivity.
  - vm_compute. discriminate.
  - reflexivity.
Defined.

(** A stored watermark of 9 * 10^15 seconds: the cycle throws before it
    sends anything. *)
Lemma cycle_with_watermark_out_of_range_witness :
  fst (handleScheduled demo_fetch demo_ai_run demo_Date_now demo_env
         (mkState (mkKV (Some (JsonConfigs [rust; zig])) (Some 9000000000000000%Z))
            false [] ∅ [] 0))
  = Throw (Error (lit "Invalid time value")).
Proof.
  refine (proj1 (cycle_with_watermark_out_of_range demo_fetch demo_ai_run demo_Date_now
                   demo_env _ 9000000000000000%Z _ _ _ _)).
  - vm_compute. discriminate.
  - reflexivity.
  - reflexivity.
  - vm_compute. reflexivity.
Defined.

(** The numbers of the cycle over "rust" and "zig" add up. *)
Lemma cycle_counts_add_up_witness :
  counts_add_up (snd (handleScheduled demo_fetch demo_ai_run demo_Date_now demo_env
                        (demo_cycle false))).
Proof.
  refine (proj1 (cycle_counts_add_up demo_fetch demo_ai_run demo_Date_now demo_env
                   (demo_cycle false) _)).
  split_and!; [vm_compute; discriminate|reflexivity|vm_compute; discriminate].
Defined.

(** A POST of a keyword of three spaces is answered 500 and changes nothing. *)
Lemma rejected_requests_change_nothing_witness :
  demo_handle (POST_keywords "   " None) (demo_cycle false)
  = (Ok (Response_json (ErrorPayload (lit "Keyword cannot be empty")) 500 corsHeaders),
     demo_cycle false).
Proof.
  refine (proj1 (rejected_requests_change_nothing toLowerCase_ascii demo_decode demo_ISO
                   demo_fetch demo_ai_run demo_Date_now demo_env (demo_cycle false)
                   (Ok (mkPostBody (lit "   ") None)) (lit "%")
                   (Error (lit "Keyword cannot be empty"))) _).
  right. eexists. split; [reflexivity|]. split; reflexivity.
Defined.

(** A GET of the keywords leaves the namespace as it is. *)
Lemma safe_methods_change_nothing_witness :
  HN_KV (snd (demo_handle GET_keywords (demo_cycle false))) = HN_KV (demo_cycle false).
Proof.
  refine (proj1 (safe_methods_change_nothing toLowerCase_ascii demo_decode demo_ISO
                   demo_fetch demo_ai_run demo_Date_now GET_keywords demo_env
                   (demo_cycle false) _)).
  left. reflexivity.
Defined.

(** A POST of " Go " and then a GET: both answer with the same keywords. *)
Lemma post_then_get_keywords_witness :
  ∃ keywords,
    fst (demo_handle (POST_keywords " Go " (Some (lit "golang"))) (demo_cycle false))
    = Ok (Response_json (KeywordsPayload keywords) 200 corsHeaders)
    ∧ demo_handle GET_keywords
        (snd (demo_handle (POST_keywords " Go " (Some (lit "golang"))) (demo_cycle false)))
      = (Ok (Response_json (KeywordsPayload keywords) 200 corsHeaders),
         snd (demo_handle (POST_keywords " Go " (Some (lit "golang"))) (demo_cycle false))).
Proof.
  refine (post_then_get_keywords toLowerCase_ascii demo_decode demo_ISO demo_fetch
            demo_ai_run demo_Date_now demo_env (demo_cycle false)
            (mkPostBody (lit " Go ") (Some (lit "golang")))
            (Throw (Error (lit "Unexpected end of JSON input"))) _).
  vm_compute. discriminate.
Defined.

(** A DELETE of [/keywords/rust] answers with "zig". *)
Lemma delete_keyword_idempotent_witness :
  fst (demo_handle (DELETE_keyword "rust") (demo_cycle false))
  = Ok (Response_json (KeywordsPayload [zig]) 200 corsHeaders).
Proof.
  assert (demo_decode (lit "rust") = Ok (lit "rust")) as Hdecoded by reflexivity.
  pose proof (proj1 (delete_keyword_idempotent toLowerCase_ascii demo_decode demo_ISO
                       demo_fetch demo_ai_run demo_Date_now demo_env (demo_cycle false)
                       (lit "rust") (lit "rust")
                       (Throw (Error (lit "Unexpected end of JSON input"))) Hdecoded))
    as Hdeleted.
  vm_compute in Hdeleted. vm_compute. exact Hdeleted.
Defined.

(** A PUT of [/keywords] is answered 404. *)
Lemma unknown_route_not_found_witness :
  demo_handle
    (mkHttpRequest (lit "PUT") (lit "/keywords") (Ok (mkPostBody (lit "go") None)))
    (demo_cycle false)
  = (Ok (Response_json (ErrorPayload (lit "Not found")) 404 corsHeaders), demo_cycle false).
Proof.
  apply (unknown_route_not_found toLowerCase_ascii demo_decode demo_ISO demo_fetch
           demo_ai_run demo_Date_now
           (mkHttpRequest (lit "PUT") (lit "/keywords") (Ok (mkPostBody (lit "go") None)))
           demo_env (demo_cycle false)).
  - vm_compute. discriminate.
  - left. split_and!; vm_compute; discriminate.
Defined.

(** A POST of [/trigger] over "rust" and "zig" answers [ok: true] and ends in
    the state of the cycle. *)
Lemma trigger_runs_one_cycle_witness :
  demo_handle POST_trigger (demo_cycle false)
  = (Ok (Response_json (TriggerPayload true (lit "Check triggered")) 200 corsHeaders),
     snd (handleScheduled demo_fetch demo_ai_run demo_Date_now demo_env (demo_cycle false))).
Proof.
  refine (proj1 (trigger_runs_one_cycle toLowerCase_ascii demo_decode demo_ISO demo_fetch
                   demo_ai_run demo_Date_now demo_env (demo_cycle false)
                   (Throw (Error (lit "Unexpected end of JSON input")))) _).
  vm_compute. reflexivity.
Defined.

(** The earlier version, adding " Go " to "rust": the list returned holds
    "go". *)
Lemma legacy_addKeyword_idempotent_witness :
  toLowerCase_ascii (trim (lit " Go ")) ∈ [lit "rust"; lit "go"].
Proof.
  apply (proj2 (legacy_addKeyword_idempotent toLowerCase_ascii (lit " Go ")
                  (Legacy.mkKV (Some [lit "rust"]) None))).
  vm_compute. reflexivity.
Defined.

(** The earlier version on "rust" and "zig": adding "Zig", removing "rust". *)
Lemma legacy_store_keeps_distinct_witness :
  NoDup (Legacy.getKeywords
           (snd (Legacy.addKeyword toLowerCase_ascii (lit "Zig")
                   (Legacy.mkKV (Some [lit "rust"; lit "zig"]) None))))
  ∧ NoDup (Legacy.getKeywords
             (snd (Legacy.removeKeyword toLowerCase_ascii (lit "rust")
                     (Legacy.mkKV (Some [lit "rust"; lit "zig"]) None)))).
Proof.
  assert (NoDup (Legacy.getKeywords (Legacy.mkKV (Some [lit "rust"; lit "zig"]) None)))
    as Hnd.
  { apply (bool_decide_unpack _). vm_compute. exact I. }
  split.
  - exact (proj1 (legacy_store_keeps_distinct toLowerCase_ascii (lit "Zig") _ Hnd)).
  - exact (proj2 (legacy_store_keeps_distinct toLowerCase_ascii (lit "rust") _ Hnd)).
Defined.

(** The current version adding " Go ", without context, to the "rust" the
    earlier version stored. *)
Lemma versions_agree_on_add_witness :
  fst (addKeyword toLowerCase_ascii (lit " Go ") None
         (migrated (Legacy.mkKV (Some [lit "rust"]) None) (demo_state false None)))
  = Ok [rust; go].
Proof.
  pose proof (versions_agree_on_add toLowerCase_ascii (lit " Go ") None
                (Legacy.mkKV (Some [lit "rust"]) None) (demo_state false None)) as Hagree.
  change (fst (Legacy.addKeyword toLowerCase_ascii (lit " Go ")
                 (Legacy.mkKV (Some [lit "rust"]) None)))
    with (Ok [lit "rust"; lit "go"] : Result (list jsstring)) in Hagree.
  destruct Hagree as (entries & Hadded & _ & Hplain).
  rewrite Hadded, (Hplain eq_refl). reflexivity.
Defined.

(** A comment of one tag and a word. *)
Lemma comment_body_bounded_tag_free_witness :
  snd (formatBatchNotification
         [mkMatchedHit (lit "zig")
            (mkHNHit (lit "9") None (Some (lit "Zig 1.0")) None None (lit "pg") 0
               (Some (lit "<p>Nice")))])
  = lit " Nice...".
Proof.
  destruct (comment_body_bounded_tag_free (lit "zig")
              (mkHNHit (lit "9") None (Some (lit "Zig 1.0")) None None (lit "pg") 0
                 (Some (lit "<p>Nice")))
              (lit "<p>Nice") eq_refl) as (_ & _ & text & Hbody & _).
  - vm_compute. discriminate.
  - vm_compute. reflexivity.
Defined.
